(** * Online TAPIR tracking demo (example.py): a shallow embedding

    The script reads a video frame by frame, feeds every frame to a
    pretrained point tracker and draws the tracked points.  The tracker,
    OpenCV and the random generator are external: they appear below as
    section variables.  Everything written in example.py itself is embedded
    as executable definitions.

    Numbers.  Pixel samples are 8-bit integers ([Z] in [0,255]).  The
    float64 arithmetic NumPy does in sample_random_points is binary64
    arithmetic on primitive floats, and its integer arrays wrap at 32 bits
    as NumPy's do.  The float32 arithmetic on tensors is idealised:
    coordinates and normalised pixel values are exact rationals ([Q]);
    logits are real numbers ([R]) because the visibility rule goes through
    [exp]. *)

From Stdlib Require Import ZArith QArith Qround Qabs Reals Lqa Lra Lia List Bool.
From Stdlib Require PrimFloat FloatOps SpecFloat.
From stdpp Require Import base option list.
Import ListNotations.

Local Open Scope Z_scope.

(** ** Scalars *)

(** [int(x)] on a float, and [astype(np.int32)] on an in-range value:
    truncation toward zero. *)
Definition Qtrunc (x : Q) : Z :=
  if Qle_bool 0 x then Qfloor x else Qceiling x.

(** [F.sigmoid]. *)
Definition sigmoid (x : R) : R := (1 / (1 + exp (- x)))%R.

(** [a > b] on floats, as a boolean. *)
Definition Rgtb (a b : R) : bool := if Rlt_dec b a then true else false.

(** Elementwise binary operation on two one-dimensional tensors with torch's
    broadcasting rule: the sizes are equal, or one of them is 1; anything
    else raises. *)
Definition broadcast2 {A B C} (f : A -> B -> C)
    (xs : list A) (ys : list B) : option (list C) :=
  if Nat.eqb (length xs) (length ys) then Some (zip_with f xs ys)
  else match xs, ys with
       | [x], _ => Some (map (f x) ys)
       | _, [y] => Some (map (fun x => f x y) xs)
       | _, _ => None
       end.

(** ** postprocess_occlusions (lines 53-55) *)

(** The expression of line 54 at one element. *)
Definition visible_at (occlusion expected_dist : R) : bool :=
  Rgtb ((1 - sigmoid occlusion) * (1 - sigmoid expected_dist))%R (5 / 10)%R.

Definition postprocess_occlusions (occlusions expected_dist : list R)
    : option (list bool) :=
  broadcast2 visible_at occlusions expected_dist.

(** ** Coordinate rescaling (lines 140-141) *)

(** [x * num / den] with integer [num] and [den], evaluated left to right. *)
Definition rescale (x : Q) (num den : Z) : Q :=
  x * inject_Z num / inject_Z den.

(** ** Frames and drawing (lines 14-26) *)

(** One pixel: three 8-bit samples. *)
Definition Pixel : Type := Z * Z * Z.

(** A decoded picture, as rows of pixels. *)
Definition Image : Type := list (list Pixel).

(** One call of [cv2.circle]. *)
Record Circle := mkCircle {
  center : Z * Z;
  radius : Z;
  color : Z * Z * Z;
  thickness : Z
}.

(** A frame is the decoded picture and the circles drawn on it so far
    ([cv2.circle] draws in place; the rasterisation is OpenCV's). *)
Record Frame := mkFrame {
  pixels : Image;
  overlay : list Circle
}.

Definition cv2_circle (frame : Frame) (c : Z * Z) (r : Z)
    (col : Z * Z * Z) (th : Z) : Frame :=
  {| pixels := pixels frame;
     overlay := overlay frame ++ [mkCircle c r col th] |}.

(** The body of the [for] loop of draw_points, over the indices still to
    visit.  An index outside [visible], [points] or [colors] raises
    IndexError ([None]). *)
Fixpoint draw_points_from (frame : Frame) (points : list (Q * Q))
    (visible : list bool) (colors : list (Z * Z * Z)) (idx : list nat)
    : option Frame :=
  match idx with
  | [] => Some frame
  | i :: idx' =>
      v ← visible !! i;
      if negb v then draw_points_from frame points visible colors idx'
      else
        point ← points !! i;
        col ← colors !! i;
        draw_points_from
          (cv2_circle frame (Qtrunc (fst point), Qtrunc (snd point)) 5
             col (-1))
          points visible colors idx'
  end.

Definition draw_points (frame : Frame) (points : list (Q * Q))
    (visible : list bool) (colors : list (Z * Z * Z)) : option Frame :=
  draw_points_from frame points visible colors (seq 0 (length points)).

(** ** Tensors of the preprocessor *)

(** Batch, rows, columns, channels (as OpenCV lays a picture out). *)
Definition TensorNHWC : Type := list (list (list (Q * Q * Q))).

(** Batch, channels, rows, columns (as the model expects). *)
Definition TensorNCHW : Type := list (list (list (list Q))).

(** [cv2.cvtColor(frame, cv2.COLOR_BGR2RGB)]: swaps the first and the third
    sample of every pixel; an empty picture raises. *)
Definition cvtColor_BGR2RGB (img : Image) : option Image :=
  match img with
  | [] => None
  | [] :: _ => None
  | _ => Some (map (map (fun p : Pixel =>
                          let '(b, g, r) := p in (r, g, b))) img)
  end.

(** [input[np.newaxis, :, :, :].astype(np.float32)]. *)
Definition newaxis_float (img : Image) : TensorNHWC :=
  [map (map (fun p : Pixel =>
               let '(c0, c1, c2) := p in
               (inject_Z c0, inject_Z c1, inject_Z c2))) img].

(** [input / 255 * 2 - 1], elementwise. *)
Definition normalize (x : Q) : Q := x / 255 * 2 - 1.

Definition normalize_tensor (t : TensorNHWC) : TensorNHWC :=
  map (map (map (fun p : Q * Q * Q =>
                   let '(c0, c1, c2) := p in
                   (normalize c0, normalize c1, normalize c2)))) t.

(** [input.permute(0, 3, 1, 2)]. *)
Definition permute_0312 (t : TensorNHWC) : TensorNCHW :=
  map (fun hwc =>
         [map (map (fun p : Q * Q * Q => fst (fst p))) hwc;
          map (map (fun p : Q * Q * Q => snd (fst p))) hwc;
          map (map (fun p : Q * Q * Q => snd p)) hwc]) t.

(** ** numpy helpers of sample_random_points *)

(** A Python int as NumPy turns it into a float64: rounded to the nearest
    double, ties to even.  (NumPy does so for integers of up to 64 bits;
    larger ones become Python objects, which is outside this embedding.) *)
Definition float_of_Z (z : Z) : PrimFloat.float :=
  FloatOps.SF2Prim
    (SpecFloat.binary_normalize FloatOps.prec FloatOps.emax z 0 false).

(** The integer part of a float64, toward zero; nan and the infinities
    have none. *)
Definition float_trunc (f : PrimFloat.float) : option Z :=
  match FloatOps.Prim2SF f with
  | SpecFloat.S754_zero _ => Some 0
  | SpecFloat.S754_finite sign m e =>
      let magnitude :=
        if 0 <=? e then Z.pos m * 2 ^ e else Z.pos m / 2 ^ (- e) in
      Some (if sign then - magnitude else magnitude)
  | _ => None
  end.

(** [int(np.sqrt(n))]: the square root is taken in float64 and [int]
    truncates it.  The square root of a negative number is nan, and
    [int(nan)] raises; an integer that does not fit 64 bits has no
    [np.sqrt] at all. *)
Definition int_sqrt (n : Z) : option nat :=
  if (n <? 0) || (2 ^ 64 <=? n) then None
  else
    z ← float_trunc (PrimFloat.sqrt (float_of_Z n));
    Some (Z.to_nat z).

(** [a.astype(np.int32)] on a float64: the integer part when it fits 32
    bits; otherwise the cast is not defined, NumPy warns and stores the
    smallest int32 (what the x86-64 conversion yields). *)
Definition float_astype_int32 (f : PrimFloat.float) : Z :=
  match float_trunc f with
  | Some z => if (- 2 ^ 31 <=? z) && (z <? 2 ^ 31) then z else - 2 ^ 31
  | None => - 2 ^ 31
  end.

(** [a.astype(np.int32)] on an int64: the low 32 bits, signed. *)
Definition astype_int32 (z : Z) : Z := (z + 2 ^ 31) mod 2 ^ 32 - 2 ^ 31.

(** [np.linspace(start, stop, num)] for [num >= 0], step by step as NumPy
    computes it in float64: the indices are multiplied by the step (or
    divided and multiplied when the step is zero), [start] is added, and
    the last value is overwritten with [stop]. *)
Definition linspace (start stop : Z) (num : nat) : list PrimFloat.float :=
  let start := float_of_Z start in
  let stop := float_of_Z stop in
  let delta := PrimFloat.sub stop start in
  let div := Z.of_nat num - 1 in
  let y := map (fun i => float_of_Z (Z.of_nat i)) (seq 0 num) in
  let y :=
    if 0 <? div then
      let step := PrimFloat.div delta (float_of_Z div) in
      if PrimFloat.eqb step PrimFloat.zero
      then map (fun v => PrimFloat.mul
                           (PrimFloat.div v (float_of_Z div)) delta) y
      else map (fun v => PrimFloat.mul v step) y
    else map (fun v => PrimFloat.mul v delta) y in
  let y := map (fun v => PrimFloat.add v start) y in
  if 0 <? div then <[Nat.pred num := stop]> y else y.

(** [np.meshgrid(x, y)] with the default 'xy' indexing: both results have
    [len(y)] rows and [len(x)] columns. *)
Definition meshgrid {A} (x y : list A) : list (list A) * list (list A) :=
  (replicate (length y) x, map (fun yi => replicate (length x) yi) y).

(** [a.flatten()] of a two-dimensional array, row by row. *)
Definition flatten {A} (a : list (list A)) : list A := concat a.

(** [np.concatenate((t, y, x), axis=-1)] on three column vectors: the row
    counts must agree, otherwise ValueError. *)
Definition concatenate3 (t y x : list Z) : option (list (Z * Z * Z)) :=
  if Nat.eqb (length t) (length y) && Nat.eqb (length y) (length x)
  then Some (zip_with (fun ty xv => (fst ty, snd ty, xv)) (zip t y) x)
  else None.

(** ** Devices and the tensor store *)

Inductive Device := cuda | cpu.

(** Lines 9-12. *)
Definition select_device (cuda_is_available : bool) : Device :=
  if cuda_is_available then cuda else cpu.

(** The contents of a tensor or of a numpy array. *)
Inductive Buffer :=
  | BufTracks (ts : list (Q * Q))
  | BufBools (bs : list bool).

(** The store: one buffer per allocation, addressed by position. *)
Abbreviation Heap := (list Buffer).

(** A torch tensor or numpy array as Python sees it: a reference to its
    storage, and the device the storage lives on. *)
Record Tensor := mkTensor {
  storage : nat;
  device_of : Device
}.

Definition alloc (h : Heap) (b : Buffer) (d : Device) : Tensor * Heap :=
  (mkTensor (length h) d, h ++ [b]).

(** [t.cpu()]: a tensor already in CPU memory is returned as it is, with
    no copy; a CUDA tensor is copied into a new CPU buffer. *)
Definition tensor_cpu (h : Heap) (t : Tensor) : option (Tensor * Heap) :=
  match device_of t with
  | cpu => Some (t, h)
  | cuda => b ← h !! storage t; Some (alloc h b cpu)
  end.

(** [t.numpy()]: the array shares the storage of the tensor. *)
Definition tensor_numpy (t : Tensor) : Tensor := t.

(** [a.squeeze()]: a view of the same storage. *)
Definition ndarray_squeeze (t : Tensor) : Tensor := t.

Definition read_tracks (h : Heap) (t : Tensor) : option (list (Q * Q)) :=
  match h !! storage t with
  | Some (BufTracks ts) => Some ts
  | _ => None
  end.

Definition read_bools (h : Heap) (t : Tensor) : option (list bool) :=
  match h !! storage t with
  | Some (BufBools bs) => Some bs
  | _ => None
  end.

(** [tracks[:, 0] = tracks[:, 0] * num / den]: the right-hand side is a new
    array, the assignment writes it into column 0 of the storage [tracks]
    refers to. *)
Definition rescale_column0 (h : Heap) (t : Tensor) (num den : Z)
    : option Heap :=
  ts ← read_tracks h t;
  let col := map (fun p : Q * Q => rescale (fst p) num den) ts in
  Some (<[storage t := BufTracks (zip_with (fun v (p : Q * Q) => (v, snd p))
                                           col ts)]> h).

(** [tracks[:, 1] = tracks[:, 1] * num / den]. *)
Definition rescale_column1 (h : Heap) (t : Tensor) (num den : Z)
    : option Heap :=
  ts ← read_tracks h t;
  let col := map (fun p : Q * Q => rescale (snd p) num den) ts in
  Some (<[storage t := BufTracks (zip_with (fun v (p : Q * Q) => (fst p, v))
                                           col ts)]> h).

(** One entry of the [predictions] list: the dict holds references. *)
Record Prediction := mkPrediction {
  pred_tracks : Tensor;
  pred_visibles : Tensor
}.

(** ** The video source *)

(** [cv2.VideoCapture]: [reads] is what successive calls of [read] return
    from position 0 on ([None]: the read fails, ret is False); a read
    past the end fails too. *)
Record VideoCapture := mkVideoCapture {
  is_opened : bool;
  reads : list (option Image);
  frame_width : Z;
  frame_height : Z
}.

(** [ord('q')]. *)
Definition ord_q : Z := 113.

(** ** The tracker's output *)

(** What [model.estimate_trajectories] returns: one entry per pyramid
    level in each of the three collections, and the next causal state. *)
Record Trajectories (CausalState : Type) := mkTrajectories {
  tr_tracks : list (list (Q * Q));
  tr_occlusion : list (list R);
  tr_expected_dist : list (list R);
  tr_causal_context : CausalState
}.

Arguments mkTrajectories {CausalState} _ _ _ _.
Arguments tr_tracks {CausalState} _.
Arguments tr_occlusion {CausalState} _.
Arguments tr_expected_dist {CausalState} _.
Arguments tr_causal_context {CausalState} _.

(** ** A small instance of the external collaborators

    Used to run the script on concrete inputs: a nearest-neighbour resize,
    a keyboard nobody touches, a generator that always draws the lower
    bound, and a tracker that reports every query point at the place it
    was queried, visible, on two pyramid levels. *)

(** [cv2.resize] with nearest-neighbour sampling; [dsize] is
    (width, height), the result has [height] rows of [width] pixels. *)
Definition resize_nearest (src : Image) (dsize : Z * Z) : option Image :=
  let '(w, h) := dsize in
  let sh := Z.of_nat (length src) in
  let sw := Z.of_nat (length (hd [] src)) in
  if (0 <? w) && (0 <? h) && (0 <? sh) && (0 <? sw) then
    Some (map (fun j =>
                 let row := nth (Z.to_nat (Z.of_nat j * sh / h)) src [] in
                 map (fun i =>
                        nth (Z.to_nat (Z.of_nat i * sw / w)) row (0, 0, 0))
                     (seq 0 (Z.to_nat w)))
              (seq 0 (Z.to_nat h)))
  else None.

Definition no_key (i : nat) : Z := -1.

Definition lowest_column (low high : Z) (n : nat) : list Z :=
  replicate n low.

Definition lowest_colors (low high : Z) (n : nat) : list (Z * Z * Z) :=
  replicate n (low, low, low).

Definition still_feature_grids (t : TensorNCHW) : unit * unit := (tt, tt).

(** One feature list per pyramid level; a feature is the queried place. *)
Definition still_query_features (query_points : list (Z * Z * Z))
    (fg hf : unit) : list (list (Q * Q)) * unit :=
  let place := map (fun p : Z * Z * Z =>
                      (inject_Z (snd p), inject_Z (snd (fst p))))
                   query_points in
  ([place; place], tt).

(** The causal state counts the frames seen. *)
Definition still_trajectories (size : Z * Z) (fg hf : unit)
    (query_feats : list (list (Q * Q))) (hqf : unit) (chunk : Z)
    (cc : nat) (get_cc : bool) : Trajectories nat :=
  let place := List.last query_feats [] in
  let logits := map (fun _ => (- 2)%R) place in
  mkTrajectories
    [map (fun _ => (0 # 1, 0 # 1)%Q) place; place]
    [map (fun _ => 0%R) place; logits]
    [map (fun _ => 0%R) place; logits]
    (S cc).

Definition still_initial_causal_state (n levels : Z) : nat := O.

(** Concrete inputs: a one-pixel frame, a video of that single frame whose
    declared size is 512 by 512, two query points (time, row, column) and
    their colours. *)
Definition demo_frame : Image := [[(10, 20, 30)]].

Definition demo_capture : VideoCapture :=
  mkVideoCapture true [Some demo_frame] 512 512.

Definition demo_query_points : list (Z * Z * Z) := [(0, 10, 10); (0, 20, 30)].

Definition demo_colors : list (Z * Z * Z) := [(255, 0, 0); (0, 255, 0)].

(** ** The script, over its external collaborators *)

Section Script.

(** *** OpenCV *)

(** [cv2.resize(src, dsize)]; [None] when OpenCV raises. *)
Variable cv2_resize : Image -> Z * Z -> option Image.

(** The key code returned by the i-th call of [cv2.waitKey(30)]. *)
Variable waitKey : nat -> Z.

(** *** numpy's random generator *)

(** The values [np.random.randint(low, high, (n, 1))] draws when it accepts
    its arguments. *)
Variable randint_column : Z -> Z -> nat -> list Z.

(** [np.random.randint(low, high, (n, 3))] for [low < high]. *)
Variable randint_colors : Z -> Z -> nat -> list (Z * Z * Z).

(** *** torch and the TAPIR model *)

Variable cuda_is_available : bool.

Context {FeatureGrid HiresFeats QueryFeat HiresQueryFeats CausalState : Type}.

Variable get_feature_grids : TensorNCHW -> FeatureGrid * HiresFeats.

Variable get_query_features :
  list (Z * Z * Z) -> FeatureGrid -> HiresFeats ->
  list QueryFeat * HiresQueryFeats.

(** Arguments in the order of the call of lines 75-84: video size,
    feature_grid, hires_feats, query_feats, hires_query_feats,
    query_chunk_size, causal_context, get_causal_context. *)
Variable estimate_trajectories :
  Z * Z -> FeatureGrid -> HiresFeats -> list QueryFeat -> HiresQueryFeats ->
  Z -> CausalState -> bool -> Trajectories CausalState.

Variable construct_initial_causal_state : Z -> Z -> CausalState.

(** *** Module-level names *)

Definition device : Device := select_device cuda_is_available.

(** Lines 97-99. *)
Definition resize_height : Z := 256.
Definition resize_width : Z := 256.
Definition num_points : Z := 256.

(** *** preprocess_frame (lines 28-39) *)

Definition preprocess_frame (frame : Image) (resize : Z * Z)
    : option TensorNCHW :=
  input ← cvtColor_BGR2RGB frame;
  input ← cv2_resize input resize;
  let input := newaxis_float input in
  let input := normalize_tensor input in
  Some (permute_0312 input).

(** *** sample_random_points (lines 41-50) *)

(** [np.random.randint(low, high, (n, 1))] with the default 64-bit dtype:
    a request for no rows is answered with the empty array before the
    bounds are looked at; otherwise the bounds must fit int64 and
    [low < high]. *)
Definition randint (low high : Z) (n : nat) : option (list Z) :=
  if Nat.eqb n 0 then Some []
  else if (low <? - 2 ^ 63) || (2 ^ 63 - 1 <? high - 1) || (high - 1 <? low)
       then None
       else Some (randint_column low high n).

Definition sample_random_points (frame_max_idx height width num_points : Z)
    : option (list (Z * Z * Z)) :=
  n ← int_sqrt num_points;
  let x := map float_astype_int32 (linspace 0 (width - 1) n) in
  let y := map float_astype_int32 (linspace 0 (height - 1) n) in
  let '(x, y) := meshgrid x y in
  let x := flatten x in
  let y := flatten y in
  t ← randint 0 (frame_max_idx + 1) (Z.to_nat num_points);
  points ← concatenate3 t y x;
  Some (map (fun p : Z * Z * Z =>
               (astype_int32 (fst (fst p)), astype_int32 (snd (fst p)),
                astype_int32 (snd p))) points).

(** *** online_model_init (lines 58-67) *)

Definition online_model_init (frame : Image) (query_points : list (Z * Z * Z))
    : option (list QueryFeat * HiresQueryFeats) :=
  frame ← preprocess_frame frame (resize_height, resize_width);
  let '(feature_grid, hires_feats) := get_feature_grids frame in
  Some (get_query_features query_points feature_grid hires_feats).

(** *** online_model_predict (lines 70-94) *)

(** The tensors the model returns are new objects on [device]; the function
    hands back references to the two it keeps. *)
Definition online_model_predict (h : Heap) (frame : Image)
    (query_feats : list QueryFeat) (hires_query_feats : HiresQueryFeats)
    (causal_context : CausalState)
    : option (Tensor * Tensor * CausalState * Heap) :=
  frame ← preprocess_frame frame (resize_height, resize_width);
  let '(feature_grid, hires_feats) := get_feature_grids frame in
  let trajectories :=
    estimate_trajectories (resize_height, resize_width)
      feature_grid hires_feats query_feats hires_query_feats
      64 causal_context true in
  let causal_context := tr_causal_context trajectories in
  tracks ← last (tr_tracks trajectories);
  occlusions ← last (tr_occlusion trajectories);
  uncertainty ← last (tr_expected_dist trajectories);
  visibles ← postprocess_occlusions occlusions uncertainty;
  let '(tracks, h) := alloc h (BufTracks tracks) device in
  let '(visibles, h) := alloc h (BufBools visibles) device in
  Some (tracks, visibles, causal_context, h).

(** *** The main block (lines 96-147) *)

(** The calls into the tracker, in the order they are made. *)
Inductive Call :=
  | CallInit (frame : Image) (query_points : list (Z * Z * Z))
  | CallPredict (frame : Image) (query_feats : list QueryFeat)
      (hires_query_feats : HiresQueryFeats) (causal_context : CausalState).

(** The variables the [while] loop updates, the tensor store, and the log
    of tracker calls.  [frames] holds the very objects [cv2.circle] draws
    on, so each entry is recorded as it is once drawn. *)
Record LoopState := mkLoopState {
  causal_state : CausalState;
  predictions : list Prediction;
  frames : list Frame;
  heap : Heap;
  calls : list Call
}.

(** Lines 133-147, for one frame that was read.  The boolean tells whether
    the iteration ends in [break]. *)
Definition loop_body (cap : VideoCapture) (query_feats : list QueryFeat)
    (hires_query_feats : HiresQueryFeats) (point_colors : list (Z * Z * Z))
    (i : nat) (frame : Image) (st : LoopState) : option (LoopState * bool) :=
  let width := frame_width cap in
  let height := frame_height cap in
  let log := calls st ++
    [CallPredict frame query_feats hires_query_feats (causal_state st)] in
  '(tracks, visibles, causal_state, h) ←
    online_model_predict (heap st) frame query_feats hires_query_feats
      (causal_state st);
  let predictions := predictions st ++ [mkPrediction tracks visibles] in
  '(visibles, h) ← tensor_cpu h visibles;
  let visibles := ndarray_squeeze (tensor_numpy visibles) in
  '(tracks, h) ← tensor_cpu h tracks;
  let tracks := ndarray_squeeze (tensor_numpy tracks) in
  h ← rescale_column0 h tracks width resize_width;
  h ← rescale_column1 h tracks height resize_height;
  points ← read_tracks h tracks;
  visible ← read_bools h visibles;
  frame ← draw_points (mkFrame frame []) points visible point_colors;
  let st' := mkLoopState causal_state predictions (frames st ++ [frame])
               h log in
  Some (st', Z.eqb (Z.land (waitKey i) 255) ord_q).

(** The [while] loop, over the reads still to come; [i] counts the
    iterations made so far. *)
Fixpoint stream_loop (cap : VideoCapture) (query_feats : list QueryFeat)
    (hires_query_feats : HiresQueryFeats) (point_colors : list (Z * Z * Z))
    (rs : list (option Image)) (i : nat) (st : LoopState)
    : option LoopState :=
  if negb (is_opened cap) then Some st
  else
    match rs with
    | [] => Some st
    | None :: _ => Some st
    | Some frame :: rs' =>
        '(st', stop) ← loop_body cap query_feats hires_query_feats
                         point_colors i frame st;
        if stop : bool then Some st'
        else stream_loop cap query_feats hires_query_feats point_colors
               rs' (S i) st'
    end.

(** The first [cap.read()] (line 115). *)
Definition first_read (cap : VideoCapture) : option Image :=
  if is_opened cap then
    match reads cap with
    | Some frame :: _ => Some frame
    | _ => None
    end
  else None.

(** Lines 106-147, once the model is loaded.  A frame that could not be
    read is [None] in Python and makes online_model_init raise;
    [cap.set(cv2.CAP_PROP_POS_FRAMES, 0)] rewinds, so the loop reads from
    the first frame again.  Moving the initial causal state to [device]
    does not change its contents. *)
Definition main (cap : VideoCapture) : option LoopState :=
  query_points ← sample_random_points 0 resize_height resize_width num_points;
  let point_colors := randint_colors 0 255 (Z.to_nat num_points) in
  let log := [] in
  match first_read cap with
  | None => None
  | Some frame =>
      let log := log ++ [CallInit frame query_points] in
      '(query_feats, hires_query_feats) ← online_model_init frame query_points;
      let causal_state :=
        construct_initial_causal_state
          (Z.of_nat (length query_points))
          (Z.of_nat (length query_feats) - 1) in
      stream_loop cap query_feats hires_query_feats point_colors
        (reads cap) 0%nat
        (mkLoopState causal_state [] [] [] log)
  end.

(** *** Reference descriptions used in the statements below *)

(** The circle draw_points asks for at a point with a colour. *)
Definition circle_of (point : Q * Q) (col : Z * Z * Z) : Circle :=
  mkCircle (Qtrunc (fst point), Qtrunc (snd point)) 5 col (-1).

(** The circles of the points whose flag is set, in the order of the
    arrays. *)
Definition visible_circles (points : list (Q * Q)) (visible : list bool)
    (colors : list (Z * Z * Z)) : list Circle :=
  omap (fun e : bool * ((Q * Q) * (Z * Z * Z)) =>
          if fst e then Some (circle_of (fst (snd e)) (snd (snd e)))
          else None)
       (zip visible (zip points colors)).

(** A sample of an 8-bit picture. *)
Definition uint8 (z : Z) : Prop := 0 <= z <= 255.

Definition uint8_pixel (p : Pixel) : Prop :=
  uint8 (fst (fst p)) /\ uint8 (snd (fst p)) /\ uint8 (snd p).

(** The four sizes of a channel-first tensor, read off its first
    entries. *)
Definition shape_NCHW (t : TensorNCHW) : nat * nat * nat * nat :=
  (length t, length (hd [] t), length (hd [] (hd [] t)),
   length (hd [] (hd [] (hd [] t)))).

(** Every entry of a channel-first tensor satisfies [P], and the tensor is
    rectangular with [c] channels of [rows] rows of [cols] values. *)
Definition all_NCHW (P : Q -> Prop) (c rows cols : nat) (t : TensorNCHW)
    : Prop :=
  Forall (fun img =>
            length img = c /\
            Forall (fun ch =>
                      length ch = rows /\
                      Forall (fun row => length row = cols /\ Forall P row)
                             ch) img) t.

(** Lines 140-141 on the values of a tracks array. *)
Definition rescale_tracks (width height : Z) (ts : list (Q * Q))
    : list (Q * Q) :=
  map (fun p : Q * Q =>
         (rescale (fst p) width resize_width,
          rescale (snd p) height resize_height)) ts.

(** The store after one iteration that started from [h] and in which the
    tracker returned the tracks [ts] and the flags [vs]: on the CPU the
    rescaling lands in the buffer the tracker returned; with CUDA,
    [.cpu()] has made copies and the rescaling lands in the copy. *)
Definition heap_after_iteration (h : Heap) (width height : Z)
    (ts : list (Q * Q)) (vs : list bool) : Heap :=
  match device with
  | cpu => h ++ [BufTracks (rescale_tracks width height ts); BufBools vs]
  | cuda => h ++ [BufTracks ts; BufBools vs; BufBools vs;
                  BufTracks (rescale_tracks width height ts)]
  end.

(** What the script relies on from the tracker: at every pyramid level,
    and there is at least one, it returns one track, one occlusion logit
    and one expected distance per query point. *)
Definition one_output_per_point : Prop :=
  forall query_points fg hf size fg' hf' chunk cc b,
    let qf := get_query_features query_points fg hf in
    let tr := estimate_trajectories size fg' hf' (fst qf) (snd qf)
                chunk cc b in
    tr_tracks tr <> [] /\ tr_occlusion tr <> [] /\
    tr_expected_dist tr <> [] /\
    Forall (fun l => length l = length query_points) (tr_tracks tr) /\
    Forall (fun l => length l = length query_points) (tr_occlusion tr) /\
    Forall (fun l => length l = length query_points) (tr_expected_dist tr).

(** Every frame the video yields can be preprocessed. *)
Definition frames_preprocess (rs : list (option Image)) : Prop :=
  forall frame, Some frame ∈ rs ->
    is_Some (preprocess_frame frame (resize_height, resize_width)).

(** The random generator returns arrays of the requested number of rows. *)
Definition randint_rows : Prop :=
  length (randint_column 0 1 (Z.to_nat num_points)) = Z.to_nat num_points /\
  length (randint_colors 0 255 (Z.to_nat num_points)) = Z.to_nat num_points.

(** A logged call is a prediction step with the given query features. *)
Definition predict_call_with (query_feats : list QueryFeat)
    (hires_query_feats : HiresQueryFeats) (c : Call) : Prop :=
  exists frame cc, c = CallPredict frame query_feats hires_query_feats cc.

(** The per-point arrays of a stored prediction, read in store [h], have
    [n] entries each. *)
Definition prediction_sized (h : Heap) (n : nat) (p : Prediction) : Prop :=
  exists ts vs,
    read_tracks h (pred_tracks p) = Some ts /\
    read_bools h (pred_visibles p) = Some vs /\
    length ts = n /\ length vs = n.

(** What holds of the loop state before and after every iteration. *)
Definition run_invariant (init : Call) (query_feats : list QueryFeat)
    (hires_query_feats : HiresQueryFeats) (n : nat) (st : LoopState)
    : Prop :=
  Forall (prediction_sized (heap st) n) (predictions st) /\
  exists steps,
    calls st = init :: steps /\
    Forall (predict_call_with query_feats hires_query_feats) steps /\
    length steps = length (predictions st).

(** ** Properties *)

(** *** The visibility rule *)

Lemma one_minus_sigmoid (x : R) : (1 - sigmoid x = / (1 + exp x))%R.
Proof.
  unfold sigmoid. rewrite exp_Ropp.
  pose proof (exp_pos x) as Hx. field. split; lra.
Qed.

Lemma Rgtb_true_iff (a b : R) : Rgtb a b = true <-> (a > b)%R.
Proof.
  unfold Rgtb. destruct (Rlt_dec b a) as [Hlt | Hge]; split; intros H;
    try assumption; try reflexivity; try discriminate.
  exfalso. apply Hge. exact H.
Qed.

Lemma Rgtb_false_iff (a b : R) : Rgtb a b = false <-> ~ (a > b)%R.
Proof.
  rewrite <- Rgtb_true_iff.
  destruct (Rgtb a b); split; intros H; congruence.
Qed.

Lemma exp_2_gt_3 : (3 < exp 2)%R.
Proof.
  pose proof (exp_ineq1 2%R) as H. lra.
Qed.

(** Far on the negative side both factors are close to one. *)
Lemma visible_at_low (o e : R) :
  (o <= - 2)%R -> (e <= - 2)%R -> visible_at o e = true.
Proof.
  intros Ho He. unfold visible_at. apply Rgtb_true_iff.
  rewrite !one_minus_sigmoid.
  assert (Hb : forall x : R, (x <= - 2)%R -> (3 / 4 < / (1 + exp x))%R).
  { intros x Hx.
    assert (Hex : (exp x <= exp (- 2))%R).
    { destruct Hx as [Hx | Hx].
      - left. apply exp_increasing. exact Hx.
      - rewrite Hx. right. reflexivity. }
    replace (- 2)%R with (Ropp 2%R) in Hex by lra.
    rewrite exp_Ropp in Hex.
    pose proof exp_2_gt_3 as H3. pose proof (exp_pos x) as Hp.
    assert (Hi : (/ exp 2 < / 3)%R).
    { apply Rinv_lt_contravar; lra. }
    assert (Hs : (1 + exp x < 4 / 3)%R) by lra.
    replace (3 / 4)%R with (/ (4 / 3))%R by field.
    apply Rinv_lt_contravar; [ | exact Hs].
    apply Rmult_lt_0_compat; lra. }
  pose proof (Hb o Ho) as H1. pose proof (Hb e He) as H2.
  assert (H : (3 / 4 * (3 / 4) < / (1 + exp o) * / (1 + exp e))%R).
  { apply Rmult_le_0_lt_compat; lra. }
  lra.
Qed.

(** On the positive side the first factor alone is at most one half. *)
Lemma visible_at_high (o e : R) :
  (0 <= o)%R -> visible_at o e = false.
Proof.
  intros Ho. unfold visible_at. apply Rgtb_false_iff.
  rewrite !one_minus_sigmoid.
  assert (Ho1 : (1 <= exp o)%R).
  { destruct Ho as [Ho | Ho].
    - left. rewrite <- exp_0. apply exp_increasing. exact Ho.
    - rewrite <- Ho, exp_0. right. reflexivity. }
  pose proof (exp_pos e) as He.
  assert (H1 : (/ (1 + exp o) <= / 2)%R).
  { apply Rinv_le_contravar; lra. }
  assert (H2 : (/ (1 + exp e) < 1)%R).
  { rewrite <- Rinv_1 at 2. apply Rinv_lt_contravar; lra. }
  assert (H3 : (0 < / (1 + exp o))%R).
  { apply Rinv_0_lt_compat. lra. }
  assert (H4 : (0 < / (1 + exp e))%R).
  { apply Rinv_0_lt_compat. lra. }
  assert (H : (/ (1 + exp o) * / (1 + exp e) < / (1 + exp o) * 1)%R).
  { apply Rmult_lt_compat_l; assumption. }
  lra.
Qed.

Lemma broadcast2_same_length {A B C} (f : A -> B -> C)
    (xs : list A) (ys : list B) :
  length xs = length ys -> broadcast2 f xs ys = Some (zip_with f xs ys).
Proof.
  intros Hlen. unfold broadcast2.
  rewrite Hlen, Nat.eqb_refl. reflexivity.
Qed.

Lemma postprocess_occlusions_length (os es : list R) (vs : list bool) :
  length os = length es ->
  postprocess_occlusions os es = Some vs -> length vs = length os.
Proof.
  intros Hlen Hp. unfold postprocess_occlusions in Hp.
  rewrite broadcast2_same_length in Hp by exact Hlen.
  inversion Hp; subst. rewrite length_zip_with. lia.
Qed.

(** C1. For two logit tensors of the same size, postprocess_occlusions
    returns one flag per element, and the flag of an element is True exactly
    when (1 - sigmoid(occlusion)) * (1 - sigmoid(expected_dist)) is greater
    than 0.5.  Both logits at or below -2 (so, tending to minus infinity)
    give True; both at or above 0 (so, tending to plus infinity) give
    False. *)
Theorem postprocess_occlusions_rule
    (occlusions expected_dist : list R) (i : nat) (o e : R) :
  length occlusions = length expected_dist ->
  occlusions !! i = Some o ->
  expected_dist !! i = Some e ->
  exists visibles : list bool,
    postprocess_occlusions occlusions expected_dist = Some visibles /\
    length visibles = length occlusions /\
    (visibles !! i = Some true <->
       ((1 - sigmoid o) * (1 - sigmoid e) > 5 / 10)%R) /\
    (visibles !! i = Some false <->
       ~ ((1 - sigmoid o) * (1 - sigmoid e) > 5 / 10)%R) /\
    ((o <= - 2)%R -> (e <= - 2)%R -> visibles !! i = Some true) /\
    ((0 <= o)%R -> (0 <= e)%R -> visibles !! i = Some false).
Proof.
  intros Hlen Ho He.
  exists (zip_with visible_at occlusions expected_dist).
  assert (Hi : zip_with visible_at occlusions expected_dist !! i
               = Some (visible_at o e)).
  { apply lookup_zip_with_Some. exists o, e. auto. }
  split.
  { unfold postprocess_occlusions. apply broadcast2_same_length, Hlen. }
  split.
  { rewrite length_zip_with. lia. }
  rewrite Hi. repeat split.
  - intros H. inversion H as [Hv]. apply Rgtb_true_iff in Hv. exact Hv.
  - intros H. f_equal. apply Rgtb_true_iff. exact H.
  - intros H. inversion H as [Hv]. apply Rgtb_false_iff in Hv. exact Hv.
  - intros H. f_equal. apply Rgtb_false_iff. exact H.
  - intros H1 H2. f_equal. apply visible_at_low; assumption.
  - intros H1 _. f_equal. apply visible_at_high; assumption.
Qed.

(** *** Coordinate rescaling *)







(** *** Drawing *)

Lemma draw_points_from_seq (points : list (Q * Q)) (visible : list bool)
    (colors : list (Z * Z * Z)) (n k : nat) (frame : Frame) :
  length visible = length points ->
  length colors = length points ->
  (k + n)%nat = length points ->
  exists frame',
    draw_points_from frame points visible colors (seq k n) = Some frame' /\
    pixels frame' = pixels frame /\
    overlay frame' =
      overlay frame ++
      visible_circles (drop k points) (drop k visible) (drop k colors).
Proof.
  intros Hv Hc. revert k frame.
  induction n as [ | n IH]; intros k frame Hk.
  - exists frame. simpl. split; [reflexivity | ]. split; [reflexivity | ].
    rewrite !drop_ge by lia. unfold visible_circles. simpl.
    rewrite app_nil_r. reflexivity.
  - destruct (lookup_lt_is_Some_2 points k) as [p Hp]; [lia | ].
    destruct (lookup_lt_is_Some_2 visible k) as [v Hvis]; [lia | ].
    destruct (lookup_lt_is_Some_2 colors k) as [c Hcol]; [lia | ].
    rewrite (drop_S _ _ _ Hp), (drop_S _ _ _ Hvis), (drop_S _ _ _ Hcol).
    simpl seq. simpl draw_points_from. rewrite Hvis. simpl.
    destruct v; simpl.
    + rewrite Hp, Hcol. simpl.
      destruct (IH (S k)
                  (cv2_circle frame (Qtrunc (fst p), Qtrunc (snd p)) 5 c (-1)))
        as (frame' & Hd & Hpx & Hov); [lia | ].
      exists frame'. split; [exact Hd | ]. split; [exact Hpx | ].
      rewrite Hov. simpl. rewrite <- app_assoc. reflexivity.
    + destruct (IH (S k) frame) as (frame' & Hd & Hpx & Hov); [lia | ].
      exists frame'. split; [exact Hd | ]. split; [exact Hpx | ].
      rewrite Hov. reflexivity.
Qed.

Lemma draw_points_visible_circles (frame : Frame) (points : list (Q * Q))
    (visible : list bool) (colors : list (Z * Z * Z)) :
  length visible = length points ->
  length colors = length points ->
  exists frame',
    draw_points frame points visible colors = Some frame' /\
    pixels frame' = pixels frame /\
    overlay frame' = overlay frame ++ visible_circles points visible colors.
Proof.
  intros Hv Hc. unfold draw_points.
  destruct (draw_points_from_seq points visible colors (length points) 0
              frame Hv Hc) as (frame' & Hd & Hpx & Hov); [lia | ].
  exists frame'. rewrite !drop_0 in Hov. auto.
Qed.

Lemma visible_circles_elem (points : list (Q * Q)) (visible : list bool)
    (colors : list (Z * Z * Z)) (c : Circle) :
  c ∈ visible_circles points visible colors <->
  exists i p col,
    visible !! i = Some true /\ points !! i = Some p /\
    colors !! i = Some col /\ c = circle_of p col.
Proof.
  unfold visible_circles. rewrite list_elem_of_omap. split.
  - intros ([v [p col]] & Hin & Hsome).
    apply list_elem_of_lookup in Hin. destruct Hin as [i Hi].
    apply lookup_zip_with_Some in Hi.
    destruct Hi as (v' & pc & Heq & Hv & Hpc).
    apply lookup_zip_with_Some in Hpc.
    destruct Hpc as (p' & col' & Heq' & Hp & Hcol).
    inversion Heq; subst. inversion H1; subst.
    simpl in Hsome. destruct v'; [ | discriminate].
    inversion Hsome; subst.
    exists i, p', col'. auto.
  - intros (i & p & col & Hv & Hp & Hcol & ->).
    exists (true, (p, col)). split; [ | reflexivity].
    apply list_elem_of_lookup. exists i.
    apply lookup_zip_with_Some. exists true, (p, col).
    split; [reflexivity | ]. split; [exact Hv | ].
    apply lookup_zip_with_Some. exists p, col. auto.
Qed.

Lemma visible_circles_length (points : list (Q * Q)) (visible : list bool)
    (colors : list (Z * Z * Z)) :
  length visible = length points ->
  length colors = length points ->
  length (visible_circles points visible colors)
  = length (filter (fun v : bool => v = true) visible).
Proof.
  revert visible colors.
  induction points as [ | p points IH]; intros visible colors Hv Hc.
  - destruct visible; [ | discriminate]. reflexivity.
  - destruct visible as [ | v visible]; [discriminate | ].
    destruct colors as [ | c colors]; [discriminate | ].
    simpl in Hv, Hc.
    unfold visible_circles in *. simpl.
    destruct v.
    + rewrite filter_cons_True by reflexivity. simpl. f_equal.
      apply IH; lia.
    + rewrite filter_cons_False by discriminate. simpl.
      apply IH; lia.
Qed.

(** C5. With three arrays of the same length, draw_points returns the
    frame with its picture unchanged and with exactly the circles of the
    points whose flag is True added, in index order: a circle is drawn
    only for an index whose flag is True, every index whose flag is True
    gets its circle (radius 5, filled) in the colour stored for that index,
    and as many circles are added as there are True flags. *)
Theorem draw_points_only_visible (frame : Frame) (points : list (Q * Q))
    (visible : list bool) (colors : list (Z * Z * Z)) :
  length visible = length points ->
  length colors = length points ->
  exists frame' drawn,
    draw_points frame points visible colors = Some frame' /\
    pixels frame' = pixels frame /\
    overlay frame' = overlay frame ++ drawn /\
    drawn = visible_circles points visible colors /\
    length drawn = length (filter (fun v : bool => v = true) visible) /\
    (forall c, c ∈ drawn ->
       exists i p col,
         visible !! i = Some true /\ points !! i = Some p /\
         colors !! i = Some col /\
         c = mkCircle (Qtrunc (fst p), Qtrunc (snd p)) 5 col (-1)) /\
    (forall i p col,
       visible !! i = Some true -> points !! i = Some p ->
       colors !! i = Some col ->
       mkCircle (Qtrunc (fst p), Qtrunc (snd p)) 5 col (-1) ∈ drawn).
Proof.
  intros Hv Hc.
  destruct (draw_points_visible_circles frame points visible colors Hv Hc)
    as (frame' & Hd & Hpx & Hov).
  exists frame', (visible_circles points visible colors).
  split; [exact Hd | ]. split; [exact Hpx | ]. split; [exact Hov | ].
  split; [reflexivity | ].
  split; [apply visible_circles_length; assumption | ].
  split.
  - intros c Hin. apply visible_circles_elem in Hin. exact Hin.
  - intros i p col Hvis Hp Hcol. apply visible_circles_elem.
    exists i, p, col. auto.
Qed.

(** *** The preprocessor *)

Lemma normalize_range (z : Z) :
  uint8 z -> (- (1) <= normalize (inject_Z z) <= 1)%Q.
Proof.
  intros [Hlo Hhi]. unfold normalize.
  rewrite Zle_Qle in Hlo. rewrite Zle_Qle in Hhi.
  change (inject_Z 0) with 0%Q in Hlo.
  change (inject_Z 255) with 255%Q in Hhi.
  assert (Hn : (inject_Z z / 255 * 2 - 1 == inject_Z z * (2 # 255) - 1)%Q)
    by field.
  rewrite Hn. split; Lqa.lra.
Qed.

Lemma preprocess_channels (out : Image) :
  permute_0312 (normalize_tensor (newaxis_float out)) =
  [[map (map (fun p : Pixel => normalize (inject_Z (fst (fst p))))) out;
    map (map (fun p : Pixel => normalize (inject_Z (snd (fst p))))) out;
    map (map (fun p : Pixel => normalize (inject_Z (snd p)))) out]].
Proof.
  unfold permute_0312, normalize_tensor, newaxis_float. simpl.
  repeat f_equal; rewrite !map_map; apply map_ext; intros row;
    rewrite !map_map; apply map_ext; intros [[a b] c]; reflexivity.
Qed.

Lemma channel_layout (f : Pixel -> Q) (out : Image) (rows cols : nat) :
  length out = rows ->
  Forall (fun row => length row = cols) out ->
  Forall (Forall uint8_pixel) out ->
  (forall p, uint8_pixel p -> (- (1) <= f p <= 1)%Q) ->
  length (map (map f) out) = rows /\
  Forall (fun row => length row = cols /\
                     Forall (fun v => (- (1) <= v <= 1)%Q) row)
         (map (map f) out).
Proof.
  intros Hrows Hcols Hpix Hf. split.
  - rewrite length_map. exact Hrows.
  - rewrite Forall_map. rewrite Forall_forall in Hcols, Hpix.
    apply Forall_forall. intros row Hin. split.
    + rewrite length_map. apply Hcols, Hin.
    + rewrite Forall_map. specialize (Hpix row Hin).
      eapply Forall_impl; [exact Hpix | ]. intros p Hp. apply Hf, Hp.
Qed.

(** C2. When cv2.resize returns an 8-bit picture of the size it documents
    for dsize = (width, height), that is dsize[1] rows of dsize[0] pixels,
    preprocess_frame returns a channel-first tensor with one batch entry
    and three channels whose values all lie in [-1, 1]; each channel has
    resize[1] rows and resize[0] columns.  Called with
    resize = (height, width), as lines 60 and 73 do, the tensor is
    therefore width rows by height columns. *)
Theorem preprocess_frame_layout (frame rgb out : Image) (resize : Z * Z) :
  cvtColor_BGR2RGB frame = Some rgb ->
  cv2_resize rgb resize = Some out ->
  length out = Z.to_nat (snd resize) ->
  Forall (fun row => length row = Z.to_nat (fst resize)) out ->
  Forall (Forall uint8_pixel) out ->
  exists t,
    preprocess_frame frame resize = Some t /\
    length t = 1%nat /\
    all_NCHW (fun v => (- (1) <= v <= 1)%Q) 3
      (Z.to_nat (snd resize)) (Z.to_nat (fst resize)) t.
Proof.
  intros Hcvt Hres Hrows Hcols Hpix.
  exists (permute_0312 (normalize_tensor (newaxis_float out))).
  split.
  { unfold preprocess_frame. rewrite Hcvt. simpl. rewrite Hres. reflexivity. }
  rewrite preprocess_channels. split; [reflexivity | ].
  unfold all_NCHW. constructor; [ | constructor].
  split; [reflexivity | ].
  assert (Hch : forall f : Pixel -> Q,
             (forall p, uint8_pixel p -> (- (1) <= f p <= 1)%Q) ->
             length (map (map f) out) = Z.to_nat (snd resize) /\
             Forall (fun row => length row = Z.to_nat (fst resize) /\
                                Forall (fun v => (- (1) <= v <= 1)%Q) row)
                    (map (map f) out)).
  { intros f Hf. apply channel_layout; assumption. }
  constructor; [ | constructor; [ | constructor; [ | constructor]]];
    apply Hch; intros [[a b] c] (Ha & Hb & Hc); simpl in *;
    apply normalize_range; assumption.
Qed.

(** *** Query point sampling *)

Lemma linspace_length (start stop : Z) (num : nat) :
  length (linspace start stop num) = num.
Proof.
  unfold linspace.
  destruct (0 <? Z.of_nat num - 1).
  - rewrite length_insert.
    destruct (PrimFloat.eqb _ _);
      rewrite !length_map, length_seq; reflexivity.
  - rewrite !length_map, length_seq. reflexivity.
Qed.

Lemma concat_uniform_length {A} (rows : list (list A)) (n : nat) :
  Forall (fun r => length r = n) rows ->
  length (concat rows) = (length rows * n)%nat.
Proof.
  induction 1 as [ | r rows Hr _ IH]; [reflexivity | ].
  simpl. rewrite length_app, IH, Hr. reflexivity.
Qed.

(** Lines 43-47 produce two columns of n * n values; the rest of the
    function draws the times, joins the three columns and casts. *)
Lemma sample_random_points_columns
    (frame_max_idx height width num_points : Z) (n : nat) :
  int_sqrt num_points = Some n ->
  exists fy fx,
    length fy = (n * n)%nat /\
    length fx = (n * n)%nat /\
    sample_random_points frame_max_idx height width num_points
    = (t ← randint 0 (frame_max_idx + 1) (Z.to_nat num_points);
       points ← concatenate3 t fy fx;
       Some (map (fun p : Z * Z * Z =>
                    (astype_int32 (fst (fst p)), astype_int32 (snd (fst p)),
                     astype_int32 (snd p))) points)).
Proof.
  intros Hn.
  set (xs := map float_astype_int32 (linspace 0 (width - 1) n)).
  set (ys := map float_astype_int32 (linspace 0 (height - 1) n)).
  assert (Hxs : length xs = n)
    by (unfold xs; rewrite length_map; apply linspace_length).
  assert (Hys : length ys = n)
    by (unfold ys; rewrite length_map; apply linspace_length).
  exists (flatten (map (fun yi => replicate (length xs) yi) ys)),
         (flatten (replicate (length ys) xs)).
  split; [ | split].
  - unfold flatten. rewrite (concat_uniform_length _ n).
    + rewrite length_map, Hys. reflexivity.
    + apply Forall_map, Forall_forall. intros y _. simpl.
      rewrite length_replicate. exact Hxs.
  - unfold flatten. rewrite (concat_uniform_length _ n).
    + rewrite length_replicate, Hys. reflexivity.
    + apply Forall_replicate. exact Hxs.
  - unfold sample_random_points. rewrite Hn. reflexivity.
Qed.

(** C10. The grid has n * n points, n = int(np.sqrt(num_points)), while
    the time column has num_points rows.  Whenever the two differ, that is
    for every num_points that is not the square of n, np.concatenate cannot
    join the columns and sample_random_points raises instead of returning
    the n * n points of the grid. *)
Theorem sample_random_points_raises_off_squares
    (frame_max_idx height width num_points : Z) (n : nat) :
  int_sqrt num_points = Some n ->
  (n * n)%nat <> Z.to_nat num_points ->
  length (randint_column 0 (frame_max_idx + 1) (Z.to_nat num_points))
  = Z.to_nat num_points ->
  sample_random_points frame_max_idx height width num_points = None.
Proof.
  intros Hn Hne Hlen.
  destruct (sample_random_points_columns frame_max_idx height width
              num_points n Hn) as (fy & fx & Hfy & Hfx & ->).
  assert (Hcat : forall t, length t = Z.to_nat num_points ->
                           concatenate3 t fy fx = None).
  { intros t Ht. unfold concatenate3. rewrite Ht, Hfy.
    destruct (Nat.eqb_spec (Z.to_nat num_points) (n * n)) as [Heq | _];
      [ | reflexivity].
    exfalso. apply Hne. symmetry. exact Heq. }
  destruct (randint 0 (frame_max_idx + 1) (Z.to_nat num_points))
    as [t | ] eqn:Ht; [ | reflexivity].
  assert (Hlt : length t = Z.to_nat num_points).
  { unfold randint in Ht.
    destruct (Nat.eqb_spec (Z.to_nat num_points) 0) as [Hzero | _].
    - inversion Ht; subst t. rewrite Hzero. reflexivity.
    - destruct ((0 <? - 2 ^ 63) || (2 ^ 63 - 1 <? frame_max_idx + 1 - 1)
                || (frame_max_idx + 1 - 1 <? 0)); [discriminate | ].
      inversion Ht; subst t. exact Hlen. }
  change (Some t ≫= _) with
    (concatenate3 t fy fx ≫=
       fun points => Some (map (fun p : Z * Z * Z =>
                                  (astype_int32 (fst (fst p)),
                                   astype_int32 (snd (fst p)),
                                   astype_int32 (snd p))) points)).
  rewrite (Hcat t Hlt). reflexivity.
Qed.

(** The call of line 110. *)
Lemma sample_random_points_in_main :
  length (randint_column 0 1 (Z.to_nat num_points)) = Z.to_nat num_points ->
  exists query_points,
    sample_random_points 0 resize_height resize_width num_points
      = Some query_points /\
    length query_points = Z.to_nat num_points.
Proof.
  intros Hlen.
  assert (Hn : int_sqrt num_points = Some 16%nat) by (vm_compute; reflexivity).
  destruct (sample_random_points_columns 0 resize_height resize_width
              num_points 16 Hn) as (fy & fx & Hfy & Hfx & ->).
  assert (Ht : randint 0 (0 + 1) (Z.to_nat num_points)
               = Some (randint_column 0 1 (Z.to_nat num_points)))
    by reflexivity.
  rewrite Ht.
  set (t := randint_column 0 1 (Z.to_nat num_points)) in *.
  assert (Hcat : concatenate3 t fy fx
                 = Some (zip_with (fun ty xv => (fst ty, snd ty, xv))
                           (zip t fy) fx)).
  { unfold concatenate3. rewrite Hlen, Hfy, Hfx. reflexivity. }
  change (Some t ≫= _) with
    (concatenate3 t fy fx ≫=
       fun points => Some (map (fun p : Z * Z * Z =>
                                  (astype_int32 (fst (fst p)),
                                   astype_int32 (snd (fst p)),
                                   astype_int32 (snd p))) points)).
  rewrite Hcat. eexists. split; [reflexivity | ].
  rewrite length_map, !length_zip_with, Hlen, Hfy, Hfx.
  change (Z.to_nat num_points) with (16 * 16)%nat. lia.
Qed.

(** *** One prediction step *)

Lemma online_model_predict_eq (h : Heap) (frame : Image)
    (qf : list QueryFeat) (hqf : HiresQueryFeats) (cc : CausalState)
    (input : TensorNCHW) :
  preprocess_frame frame (resize_height, resize_width) = Some input ->
  online_model_predict h frame qf hqf cc =
    (let tr := estimate_trajectories (resize_height, resize_width)
                 (fst (get_feature_grids input))
                 (snd (get_feature_grids input)) qf hqf 64 cc true in
     ts ← last (tr_tracks tr);
     os ← last (tr_occlusion tr);
     us ← last (tr_expected_dist tr);
     vs ← postprocess_occlusions os us;
     Some (mkTensor (length h) device, mkTensor (S (length h)) device,
           tr_causal_context tr, h ++ [BufTracks ts; BufBools vs])).
Proof.
  intros Hin. unfold online_model_predict. rewrite Hin. simpl.
  destruct (get_feature_grids input) as [fg hf]. simpl.
  destruct (last (tr_tracks _)) as [ts | ]; [ | reflexivity]. simpl.
  destruct (last (tr_occlusion _)) as [os | ]; [ | reflexivity]. simpl.
  destruct (last (tr_expected_dist _)) as [us | ]; [ | reflexivity]. simpl.
  destruct (postprocess_occlusions os us) as [vs | ]; [ | reflexivity]. simpl.
  unfold alloc. rewrite length_app. simpl.
  rewrite Nat.add_1_r, <- app_assoc. reflexivity.
Qed.

Lemma read_tracks_alloc (h : Heap) (ts : list (Q * Q)) (rest : Heap)
    (d : Device) :
  read_tracks (h ++ BufTracks ts :: rest) (mkTensor (length h) d) = Some ts.
Proof.
  unfold read_tracks. simpl. rewrite list_lookup_middle by reflexivity.
  reflexivity.
Qed.

Lemma read_bools_alloc (h : Heap) (b : Buffer) (vs : list bool)
    (rest : Heap) (d : Device) :
  read_bools (h ++ b :: BufBools vs :: rest) (mkTensor (S (length h)) d)
  = Some vs.
Proof.
  unfold read_bools. simpl.
  replace (h ++ b :: BufBools vs :: rest)
    with ((h ++ [b]) ++ BufBools vs :: rest)
    by (rewrite <- app_assoc; reflexivity).
  rewrite list_lookup_middle by (rewrite length_app; simpl; lia).
  reflexivity.
Qed.

(** C8. online_model_predict calls estimate_trajectories with
    query_chunk_size 64, and whatever the tracker returned for the coarser
    pyramid levels, the step returns the last entry of the tracks
    collection, the flags computed from the last entries of the occlusion
    and expected_dist collections, and the tracker's causal state; nothing
    of the earlier entries reaches the result or the store. *)
Theorem online_model_predict_finest_level
    (h : Heap) (frame : Image) (qf : list QueryFeat) (hqf : HiresQueryFeats)
    (cc cc' : CausalState) (input : TensorNCHW)
    (coarse_tracks : list (list (Q * Q)))
    (coarse_occlusion coarse_dist : list (list R))
    (tracks : list (Q * Q)) (occlusions uncertainty : list R)
    (visibles : list bool) :
  preprocess_frame frame (resize_height, resize_width) = Some input ->
  estimate_trajectories (resize_height, resize_width)
    (fst (get_feature_grids input)) (snd (get_feature_grids input))
    qf hqf 64 cc true
  = mkTrajectories (coarse_tracks ++ [tracks])
      (coarse_occlusion ++ [occlusions]) (coarse_dist ++ [uncertainty]) cc' ->
  postprocess_occlusions occlusions uncertainty = Some visibles ->
  exists t v,
    online_model_predict h frame qf hqf cc
      = Some (t, v, cc', h ++ [BufTracks tracks; BufBools visibles]) /\
    read_tracks (h ++ [BufTracks tracks; BufBools visibles]) t
      = Some tracks /\
    read_bools (h ++ [BufTracks tracks; BufBools visibles]) v
      = Some visibles.
Proof.
  intros Hin Htr Hvis.
  exists (mkTensor (length h) device), (mkTensor (S (length h)) device).
  split.
  - rewrite (online_model_predict_eq _ _ _ _ _ input Hin). simpl.
    rewrite Htr. simpl. rewrite !last_snoc. simpl. rewrite Hvis. reflexivity.
  - split; [apply read_tracks_alloc | apply read_bools_alloc].
Qed.

(** *** One iteration of the loop *)

Lemma zip_with_map_fst {A B} (f : A -> B) (g : A -> B) (ts : list A)
    (mk : B -> A -> A) :
  zip_with mk (map f ts) ts = map (fun p => mk (f p) p) ts.
Proof.
  induction ts as [ | p ts IH]; simpl; [reflexivity | ].
  f_equal. exact IH.
Qed.

Lemma rescale_column0_alloc (h rest : Heap) (ts : list (Q * Q)) (d : Device)
    (num den : Z) :
  rescale_column0 (h ++ BufTracks ts :: rest) (mkTensor (length h) d) num den
  = Some (h ++ BufTracks (map (fun p : Q * Q =>
                                 (rescale (fst p) num den, snd p)) ts)
               :: rest).
Proof.
  unfold rescale_column0. rewrite read_tracks_alloc. simpl. f_equal.
  rewrite insert_app_r_alt by lia. rewrite Nat.sub_diag. simpl.
  rewrite (zip_with_map_fst _ (fun p => rescale (fst p) num den)).
  reflexivity.
Qed.

Lemma rescale_column1_alloc (h rest : Heap) (ts : list (Q * Q)) (d : Device)
    (num den : Z) :
  rescale_column1 (h ++ BufTracks ts :: rest) (mkTensor (length h) d) num den
  = Some (h ++ BufTracks (map (fun p : Q * Q =>
                                 (fst p, rescale (snd p) num den)) ts)
               :: rest).
Proof.
  unfold rescale_column1. rewrite read_tracks_alloc. simpl. f_equal.
  rewrite insert_app_r_alt by lia. rewrite Nat.sub_diag. simpl.
  rewrite (zip_with_map_fst _ (fun p => rescale (snd p) num den)).
  reflexivity.
Qed.

Lemma rescale_both_alloc (h rest : Heap) (ts : list (Q * Q)) (d : Device)
    (width height : Z) :
  (h1 ← rescale_column0 (h ++ BufTracks ts :: rest) (mkTensor (length h) d)
          width resize_width;
   rescale_column1 h1 (mkTensor (length h) d) height resize_height)
  = Some (h ++ BufTracks (rescale_tracks width height ts) :: rest).
Proof.
  rewrite rescale_column0_alloc. simpl. rewrite rescale_column1_alloc.
  unfold rescale_tracks. rewrite map_map. reflexivity.
Qed.

Lemma read_bools_at (h rest : Heap) (vs : list bool) (d : Device) :
  read_bools (h ++ BufBools vs :: rest) (mkTensor (length h) d) = Some vs.
Proof.
  unfold read_bools. simpl. rewrite list_lookup_middle by reflexivity.
  reflexivity.
Qed.

Lemma loop_body_eq (cap : VideoCapture) (qf : list QueryFeat)
    (hqf : HiresQueryFeats) (colors : list (Z * Z * Z)) (i : nat)
    (frame : Image) (st : LoopState) (ts : list (Q * Q)) (vs : list bool)
    (cc' : CausalState) :
  online_model_predict (heap st) frame qf hqf (causal_state st)
  = Some (mkTensor (length (heap st)) device,
          mkTensor (S (length (heap st))) device, cc',
          heap st ++ [BufTracks ts; BufBools vs]) ->
  loop_body cap qf hqf colors i frame st =
    (frame' ← draw_points (mkFrame frame [])
                (rescale_tracks (frame_width cap) (frame_height cap) ts)
                vs colors;
     Some (mkLoopState cc'
             (predictions st ++
                [mkPrediction (mkTensor (length (heap st)) device)
                   (mkTensor (S (length (heap st))) device)])
             (frames st ++ [frame'])
             (heap_after_iteration (heap st) (frame_width cap)
                (frame_height cap) ts vs)
             (calls st ++ [CallPredict frame qf hqf (causal_state st)]),
           Z.eqb (Z.land (waitKey i) 255) ord_q)).
Proof.
  intros Hp. unfold loop_body. rewrite Hp. clear Hp.
  unfold heap_after_iteration, device, ndarray_squeeze, tensor_numpy. simpl.
  set (h := heap st).
  destruct cuda_is_available; simpl.
  - (* CUDA: .cpu() copies both tensors, the rescaling lands in the copy *)
    unfold tensor_cpu; simpl.
    replace (h ++ [BufTracks ts; BufBools vs])
      with ((h ++ [BufTracks ts]) ++ BufBools vs :: [])
      by (rewrite <- app_assoc; reflexivity).
    rewrite (list_lookup_middle _ _ _ (S (length h)))
      by (rewrite length_app; simpl; lia).
    simpl. unfold alloc.
    replace (((h ++ [BufTracks ts]) ++ [BufBools vs]) ++ [BufBools vs])
      with (h ++ BufTracks ts :: [BufBools vs; BufBools vs])
      by (rewrite <- !app_assoc; reflexivity).
    rewrite (list_lookup_middle _ _ _ (length h)) by reflexivity.
    simpl.
    replace (length ((h ++ [BufTracks ts]) ++ [BufBools vs]))
      with (length (h ++ [BufTracks ts; BufBools vs]))
      by (rewrite <- app_assoc; reflexivity).
    set (h3 := h ++ [BufTracks ts; BufBools vs; BufBools vs]).
    rewrite rescale_column0_alloc. simpl.
    rewrite rescale_column1_alloc. simpl.
    rewrite read_tracks_alloc. simpl.
    replace (h3 ++ [BufTracks
                      (map (fun p : Q * Q =>
                              (fst p, rescale (snd p) (frame_height cap)
                                        resize_height))
                         (map (fun p : Q * Q =>
                                 (rescale (fst p) (frame_width cap)
                                    resize_width, snd p)) ts))])
      with ((h ++ [BufTracks ts; BufBools vs]) ++
            BufBools vs ::
            [BufTracks (rescale_tracks (frame_width cap) (frame_height cap)
                          ts)]).
    2: { unfold h3, rescale_tracks. rewrite map_map, <- !app_assoc.
         reflexivity. }
    rewrite read_bools_at. simpl.
    unfold rescale_tracks at 1. rewrite map_map. simpl.
    rewrite <- !app_assoc. reflexivity.
  - (* CPU: .cpu() returns the tensor itself *)
    rewrite rescale_column0_alloc. simpl.
    rewrite rescale_column1_alloc. simpl.
    rewrite read_tracks_alloc. simpl.
    rewrite read_bools_alloc. simpl.
    unfold rescale_tracks. rewrite map_map. reflexivity.
Qed.

Lemma online_model_predict_inv (h h1 : Heap) (frame : Image)
    (qf : list QueryFeat) (hqf : HiresQueryFeats) (cc cc' : CausalState)
    (t v : Tensor) :
  online_model_predict h frame qf hqf cc = Some (t, v, cc', h1) ->
  exists ts vs,
    t = mkTensor (length h) device /\
    v = mkTensor (S (length h)) device /\
    h1 = h ++ [BufTracks ts; BufBools vs].
Proof.
  intros Hp.
  destruct (preprocess_frame frame (resize_height, resize_width))
    as [input | ] eqn:Hin.
  - rewrite (online_model_predict_eq _ _ _ _ _ input Hin) in Hp.
    simpl in Hp.
    destruct (last (tr_tracks _)) as [ts | ]; [ | discriminate].
    destruct (last (tr_occlusion _)) as [os | ]; [ | discriminate].
    destruct (last (tr_expected_dist _)) as [us | ]; [ | discriminate].
    simpl in Hp.
    destruct (postprocess_occlusions os us) as [vs | ]; [ | discriminate].
    simpl in Hp. inversion Hp; subst. exists ts, vs. auto.
  - unfold online_model_predict in Hp. rewrite Hin in Hp. discriminate.
Qed.

(** C3 (what the loop does to the entry it has just appended). When the
    tracker returned the tracks [ts] and as many flags and colours, the
    iteration completes and appends one entry that refers to the tracker's
    tensors.  With CUDA the entry still reads [ts] when the iteration
    ends.  Without CUDA, [.cpu()] and [.numpy()] hand lines 140-141 the
    very buffer the entry refers to, and the entry reads the rescaled
    tracks instead of [ts]. *)
Theorem prediction_entry_after_iteration
    (cap : VideoCapture) (qf : list QueryFeat) (hqf : HiresQueryFeats)
    (colors : list (Z * Z * Z)) (i : nat) (frame : Image) (st : LoopState)
    (t v : Tensor) (cc' : CausalState) (h1 : Heap)
    (ts : list (Q * Q)) (vs : list bool) :
  online_model_predict (heap st) frame qf hqf (causal_state st)
    = Some (t, v, cc', h1) ->
  read_tracks h1 t = Some ts ->
  read_bools h1 v = Some vs ->
  length vs = length ts ->
  length colors = length ts ->
  exists st' stop,
    loop_body cap qf hqf colors i frame st = Some (st', stop) /\
    predictions st' = predictions st ++ [mkPrediction t v] /\
    read_bools (heap st') v = Some vs /\
    read_tracks (heap st') t =
      Some (if cuda_is_available then ts
            else rescale_tracks (frame_width cap) (frame_height cap) ts).
Proof.
  intros Hp Hrt Hrv Hlv Hlc.
  destruct (online_model_predict_inv _ _ _ _ _ _ _ _ _ Hp)
    as (ts' & vs' & -> & -> & ->).
  rewrite read_tracks_alloc in Hrt. inversion Hrt; subst ts'.
  rewrite read_bools_alloc in Hrv. inversion Hrv; subst vs'.
  rewrite (loop_body_eq _ _ _ _ _ _ _ ts vs cc' Hp).
  destruct (draw_points_visible_circles (mkFrame frame [])
              (rescale_tracks (frame_width cap) (frame_height cap) ts)
              vs colors) as (frame' & Hd & _ & _).
  { unfold rescale_tracks. rewrite length_map. exact Hlv. }
  { unfold rescale_tracks. rewrite length_map. exact Hlc. }
  rewrite Hd. simpl. eexists _, _. split; [reflexivity | ]. simpl.
  split; [reflexivity | ].
  unfold heap_after_iteration, device, select_device.
  destruct cuda_is_available.
  - split; [apply read_bools_alloc | apply read_tracks_alloc].
  - split; [apply read_bools_alloc | apply read_tracks_alloc].
Qed.

(** *** The whole loop *)

Lemma read_tracks_app (h x : Heap) (t : Tensor) (ts : list (Q * Q)) :
  read_tracks h t = Some ts -> read_tracks (h ++ x) t = Some ts.
Proof.
  unfold read_tracks. intros H.
  destruct (h !! storage t) as [b | ] eqn:Hl; [ | discriminate].
  rewrite (lookup_app_l_Some _ _ _ _ Hl). exact H.
Qed.

Lemma read_bools_app (h x : Heap) (t : Tensor) (vs : list bool) :
  read_bools h t = Some vs -> read_bools (h ++ x) t = Some vs.
Proof.
  unfold read_bools. intros H.
  destruct (h !! storage t) as [b | ] eqn:Hl; [ | discriminate].
  rewrite (lookup_app_l_Some _ _ _ _ Hl). exact H.
Qed.

Lemma prediction_sized_app (h x : Heap) (n : nat) (p : Prediction) :
  prediction_sized h n p -> prediction_sized (h ++ x) n p.
Proof.
  intros (ts & vs & Ht & Hv & Hlt & Hlv). exists ts, vs.
  split; [apply read_tracks_app, Ht | ].
  split; [apply read_bools_app, Hv | ]. auto.
Qed.

Lemma heap_after_iteration_extends (h : Heap) (w ht : Z)
    (ts : list (Q * Q)) (vs : list bool) :
  exists x, heap_after_iteration h w ht ts vs = h ++ x.
Proof.
  unfold heap_after_iteration. destruct device; eexists; reflexivity.
Qed.

Lemma heap_after_iteration_sized (h : Heap) (w ht : Z)
    (ts : list (Q * Q)) (vs : list bool) (n : nat) :
  length ts = n -> length vs = n ->
  prediction_sized (heap_after_iteration h w ht ts vs) n
    (mkPrediction (mkTensor (length h) device)
       (mkTensor (S (length h)) device)).
Proof.
  intros Hts Hvs. unfold prediction_sized, heap_after_iteration. simpl.
  destruct device.
  - exists ts, vs. rewrite read_tracks_alloc, read_bools_alloc. auto.
  - exists (rescale_tracks w ht ts), vs.
    rewrite read_tracks_alloc, read_bools_alloc.
    unfold rescale_tracks. rewrite length_map. auto.
Qed.

Lemma last_Forall {A} (P : A -> Prop) (l : list A) :
  l <> [] -> Forall P l -> exists x, last l = Some x /\ P x.
Proof.
  intros Hne HP. destruct (last l) as [x | ] eqn:Hl.
  - exists x. split; [reflexivity | ].
    rewrite Forall_forall in HP. apply HP.
    apply last_Some in Hl. destruct Hl as [l' ->].
    apply elem_of_app. right. apply list_elem_of_singleton. reflexivity.
  - apply last_None in Hl. contradiction.
Qed.

Lemma loop_body_step (cap : VideoCapture) (init : Call)
    (query_points : list (Z * Z * Z)) (fg : FeatureGrid) (hf : HiresFeats)
    (colors : list (Z * Z * Z)) (i : nat) (frame : Image) (st : LoopState) :
  one_output_per_point ->
  length colors = length query_points ->
  is_Some (preprocess_frame frame (resize_height, resize_width)) ->
  let qf := fst (get_query_features query_points fg hf) in
  let hqf := snd (get_query_features query_points fg hf) in
  run_invariant init qf hqf (length query_points) st ->
  exists st' stop,
    loop_body cap qf hqf colors i frame st = Some (st', stop) /\
    run_invariant init qf hqf (length query_points) st'.
Proof.
  intros Hmodel Hcol [input Hin] qf hqf (Hsized & steps & Hcalls & Hsteps & Hlen).
  set (tr := estimate_trajectories (resize_height, resize_width)
               (fst (get_feature_grids input)) (snd (get_feature_grids input))
               qf hqf 64 (causal_state st) true).
  destruct (Hmodel query_points fg hf (resize_height, resize_width)
              (fst (get_feature_grids input)) (snd (get_feature_grids input))
              64 (causal_state st) true)
    as (Hn1 & Hn2 & Hn3 & Hf1 & Hf2 & Hf3).
  fold qf hqf tr in Hn1, Hn2, Hn3, Hf1, Hf2, Hf3.
  destruct (last_Forall _ _ Hn1 Hf1) as (ts & Hts & Hlts).
  destruct (last_Forall _ _ Hn2 Hf2) as (os & Hos & Hlos).
  destruct (last_Forall _ _ Hn3 Hf3) as (us & Hus & Hlus).
  assert (Hpost : postprocess_occlusions os us
                  = Some (zip_with visible_at os us)).
  { unfold postprocess_occlusions. apply broadcast2_same_length. lia. }
  set (vs := zip_with visible_at os us) in *.
  assert (Hlvs : length vs = length query_points).
  { unfold vs. rewrite length_zip_with. lia. }
  assert (Hp : online_model_predict (heap st) frame qf hqf (causal_state st)
               = Some (mkTensor (length (heap st)) device,
                       mkTensor (S (length (heap st))) device,
                       tr_causal_context tr,
                       heap st ++ [BufTracks ts; BufBools vs])).
  { rewrite (online_model_predict_eq _ _ _ _ _ input Hin). simpl.
    fold tr. rewrite Hts, Hos, Hus. simpl. rewrite Hpost. reflexivity. }
  rewrite (loop_body_eq _ _ _ _ _ _ _ ts vs _ Hp).
  destruct (draw_points_visible_circles (mkFrame frame [])
              (rescale_tracks (frame_width cap) (frame_height cap) ts)
              vs colors) as (frame' & Hd & _ & _).
  { unfold rescale_tracks. rewrite length_map. lia. }
  { unfold rescale_tracks. rewrite length_map. lia. }
  rewrite Hd. simpl. eexists _, _. split; [reflexivity | ].
  unfold run_invariant. simpl. split.
  - apply Forall_app. split.
    + destruct (heap_after_iteration_extends (heap st) (frame_width cap)
                  (frame_height cap) ts vs) as [x ->].
      eapply Forall_impl; [exact Hsized | ].
      intros p Hp'. apply prediction_sized_app, Hp'.
    + constructor; [ | constructor].
      apply heap_after_iteration_sized; assumption.
  - exists (steps ++ [CallPredict frame qf hqf (causal_state st)]).
    rewrite Hcalls. split; [reflexivity | ]. split.
    + apply Forall_app. split; [exact Hsteps | ].
      constructor; [ | constructor]. eexists _, _. reflexivity.
    + rewrite !length_app, Hlen. reflexivity.
Qed.

Lemma stream_loop_run (cap : VideoCapture) (init : Call)
    (query_points : list (Z * Z * Z)) (fg : FeatureGrid) (hf : HiresFeats)
    (colors : list (Z * Z * Z)) (rs : list (option Image)) :
  one_output_per_point ->
  length colors = length query_points ->
  frames_preprocess rs ->
  let qf := fst (get_query_features query_points fg hf) in
  let hqf := snd (get_query_features query_points fg hf) in
  forall (i : nat) (st : LoopState),
    run_invariant init qf hqf (length query_points) st ->
    exists st',
      stream_loop cap qf hqf colors rs i st = Some st' /\
      run_invariant init qf hqf (length query_points) st'.
Proof.
  intros Hmodel Hcol Hpre qf hqf.
  induction rs as [ | r rs IH]; intros i st Hinv.
  - exists st. simpl. destruct (is_opened cap); auto.
  - simpl. destruct (is_opened cap); simpl; [ | exists st; auto].
    destruct r as [frame | ]; [ | exists st; auto].
    destruct (loop_body_step cap init query_points fg hf colors i frame st
                Hmodel Hcol) as (st1 & stop & Hbody & Hinv1).
    { apply Hpre. apply list_elem_of_here. }
    { exact Hinv. }
    fold qf hqf in Hbody. rewrite Hbody. simpl.
    destruct stop.
    + exists st1. auto.
    + apply IH; [ | exact Hinv1].
      intros f Hf. apply Hpre. apply list_elem_of_further. exact Hf.
Qed.

Lemma first_read_elem (cap : VideoCapture) (frame : Image) :
  first_read cap = Some frame ->
  Some frame ∈ reads cap /\ is_opened cap = true.
Proof.
  unfold first_read. destruct (is_opened cap); [ | discriminate].
  destruct (reads cap) as [ | [f | ] rs]; try discriminate.
  intros H. inversion H; subst. split; [apply list_elem_of_here | reflexivity].
Qed.

(** A complete run: with a tracker that answers per point, a generator
    that returns what is asked and frames that can be preprocessed, the
    main block runs to its end, and the final state satisfies the loop
    invariant. *)
Lemma main_run (cap : VideoCapture) (frame0 : Image) :
  one_output_per_point ->
  randint_rows ->
  frames_preprocess (reads cap) ->
  first_read cap = Some frame0 ->
  exists query_points qf hqf st,
    sample_random_points 0 resize_height resize_width num_points
      = Some query_points /\
    length query_points = Z.to_nat num_points /\
    online_model_init frame0 query_points = Some (qf, hqf) /\
    main cap = Some st /\
    run_invariant (CallInit frame0 query_points) qf hqf
      (Z.to_nat num_points) st.
Proof.
  intros Hmodel [Hcolumn Hcolors] Hpre Hfirst.
  destruct (sample_random_points_in_main Hcolumn) as (qp & Hqp & Hlen).
  destruct (first_read_elem _ _ Hfirst) as [Hin Hopen].
  destruct (Hpre frame0 Hin) as [input Hinput].
  destruct (get_feature_grids input) as [fg hf] eqn:Hgrid.
  destruct (get_query_features qp fg hf) as [qf hqf] eqn:Hq.
  assert (Hinit : online_model_init frame0 qp = Some (qf, hqf)).
  { unfold online_model_init. rewrite Hinput. simpl. rewrite Hgrid, Hq.
    reflexivity. }
  destruct (stream_loop_run cap (CallInit frame0 qp) qp fg hf
              (randint_colors 0 255 (Z.to_nat num_points)) (reads cap)
              Hmodel) with (i := 0%nat)
      (st := mkLoopState
               (construct_initial_causal_state (Z.of_nat (length qp))
                  (Z.of_nat (length qf) - 1)) [] [] [] [CallInit frame0 qp])
    as (st & Hloop & Hinv).
  { rewrite Hcolors, Hlen. reflexivity. }
  { exact Hpre. }
  { split; [constructor | ]. exists []. simpl. auto. }
  rewrite Hq in Hloop, Hinv. simpl in Hloop, Hinv.
  exists qp, qf, hqf, st.
  split; [exact Hqp | ]. split; [exact Hlen | ]. split; [exact Hinit | ].
  split.
  - unfold main. rewrite Hqp. simpl. rewrite Hfirst, Hinit. simpl.
    exact Hloop.
  - rewrite <- Hlen. exact Hinv.
Qed.

(** C6. In a complete run the query points are sampled once, there are
    num_points of them, and every entry of the predictions list refers to
    a tracks array and a visibles array of num_points entries each. *)
Theorem prediction_arrays_have_num_points
    (cap : VideoCapture) (frame0 : Image) :
  one_output_per_point ->
  randint_rows ->
  frames_preprocess (reads cap) ->
  first_read cap = Some frame0 ->
  exists query_points st,
    sample_random_points 0 resize_height resize_width num_points
      = Some query_points /\
    length query_points = Z.to_nat num_points /\
    main cap = Some st /\
    forall p, p ∈ predictions st ->
      exists tracks visibles,
        read_tracks (heap st) (pred_tracks p) = Some tracks /\
        read_bools (heap st) (pred_visibles p) = Some visibles /\
        length tracks = Z.to_nat num_points /\
        length visibles = Z.to_nat num_points.
Proof.
  intros Hmodel Hrand Hpre Hfirst.
  destruct (main_run cap frame0 Hmodel Hrand Hpre Hfirst)
    as (qp & qf & hqf & st & Hqp & Hlen & _ & Hmain & Hsized & _).
  exists qp, st. split; [exact Hqp | ]. split; [exact Hlen | ].
  split; [exact Hmain | ].
  intros p Hin. rewrite Forall_forall in Hsized. apply Hsized, Hin.
Qed.


(** *** A failed read *)

Lemma stream_loop_failed_read (cap : VideoCapture) (qf : list QueryFeat)
    (hqf : HiresQueryFeats) (colors : list (Z * Z * Z))
    (rest : list (option Image)) (i : nat) (st : LoopState) :
  stream_loop cap qf hqf colors (None :: rest) i st = Some st.
Proof.
  simpl. destruct (is_opened cap); reflexivity.
Qed.

Lemma stream_loop_cut (cap : VideoCapture) (qf : list QueryFeat)
    (hqf : HiresQueryFeats) (colors : list (Z * Z * Z))
    (before rest : list (option Image)) :
  forall (i : nat) (st : LoopState),
    stream_loop cap qf hqf colors (before ++ None :: rest) i st
    = stream_loop cap qf hqf colors before i st.
Proof.
  induction before as [ | r before IH]; intros i st.
  - simpl. destruct (is_opened cap); reflexivity.
  - simpl. destruct (is_opened cap); simpl; [ | reflexivity].
    destruct r as [frame | ]; [ | reflexivity].
    destruct (loop_body cap qf hqf colors i frame st) as [[st1 stop] | ];
      simpl; [ | reflexivity].
    destruct stop; [reflexivity | ]. apply IH.
Qed.

Lemma first_read_cut (opened : bool) (before rest : list (option Image))
    (w h : Z) :
  first_read (mkVideoCapture opened (before ++ None :: rest) w h)
  = first_read (mkVideoCapture opened before w h).
Proof.
  unfold first_read. simpl. destruct opened; [ | reflexivity].
  destruct before as [ | [f | ] before]; reflexivity.
Qed.

Lemma stream_loop_same_capture (cap1 cap2 : VideoCapture)
    (qf : list QueryFeat) (hqf : HiresQueryFeats)
    (colors : list (Z * Z * Z)) (rs : list (option Image)) :
  is_opened cap1 = is_opened cap2 ->
  frame_width cap1 = frame_width cap2 ->
  frame_height cap1 = frame_height cap2 ->
  forall (i : nat) (st : LoopState),
    stream_loop cap1 qf hqf colors rs i st
    = stream_loop cap2 qf hqf colors rs i st.
Proof.
  intros Ho Hw Hh.
  assert (Hb : forall i frame st,
             loop_body cap1 qf hqf colors i frame st
             = loop_body cap2 qf hqf colors i frame st).
  { intros i frame st. unfold loop_body. rewrite Hw, Hh. reflexivity. }
  induction rs as [ | r rs IH]; intros i st; simpl; rewrite Ho.
  - reflexivity.
  - destruct (is_opened cap2); simpl; [ | reflexivity].
    destruct r as [frame | ]; [ | reflexivity].
    rewrite Hb.
    destruct (loop_body cap2 qf hqf colors i frame st) as [[st1 stop] | ];
      simpl; [ | reflexivity].
    destruct stop; [reflexivity | ]. apply IH.
Qed.

(** C9. A read that fails ends the loop at once and normally: the loop
    returns the state it had before that read, with the predictions list
    and the store untouched, whatever the video would have yielded
    afterwards.  So a loop over frames followed by a failed read does what
    a loop over a video that ends there does, and so does the whole main
    block. *)
Theorem failed_read_ends_the_loop
    (cap : VideoCapture) (qf : list QueryFeat) (hqf : HiresQueryFeats)
    (colors : list (Z * Z * Z)) (before rest : list (option Image))
    (i : nat) (st : LoopState) :
  stream_loop cap qf hqf colors (None :: rest) i st = Some st /\
  stream_loop cap qf hqf colors (before ++ None :: rest) i st
  = stream_loop cap qf hqf colors before i st /\
  main (mkVideoCapture (is_opened cap) (before ++ None :: rest)
          (frame_width cap) (frame_height cap))
  = main (mkVideoCapture (is_opened cap) before
            (frame_width cap) (frame_height cap)).
Proof.
  split; [apply stream_loop_failed_read | ].
  split; [apply stream_loop_cut | ].
  unfold main.
  destruct (sample_random_points 0 resize_height resize_width num_points)
    as [qp | ]; [ | reflexivity].
  simpl. rewrite first_read_cut.
  destruct (first_read _) as [frame | ]; [ | reflexivity].
  destruct (online_model_init frame qp) as [[qf0 hqf0] | ];
    [ | reflexivity].
  simpl.
  rewrite stream_loop_cut. apply stream_loop_same_capture; reflexivity.
Qed.

(** *** Further properties: the preprocessor *)

Lemma cvtColor_BGR2RGB_lookup (frame rgb : list (list Pixel)) (i j : nat)
    (row : list Pixel) (b g r : Z) :
  cvtColor_BGR2RGB frame = Some rgb ->
  frame !! i = Some row -> row !! j = Some (b, g, r) ->
  exists row', rgb !! i = Some row' /\ row' !! j = Some (r, g, b).
Proof.
  intros Hcvt Hrow Hpix.
  assert (Hrgb : rgb = map (map (fun p : Pixel =>
                                   let '(b, g, r) := p in (r, g, b))) frame).
  { unfold cvtColor_BGR2RGB in Hcvt.
    destruct frame as [ | [ | p row0] rows]; try discriminate;
      inversion Hcvt; reflexivity. }
  subst rgb. eexists. split.
  - rewrite list_lookup_fmap, Hrow. reflexivity.
  - rewrite list_lookup_fmap. apply fmap_Some. exists (b, g, r).
    split; [exact Hpix | reflexivity].
Qed.

Lemma channel_lookup (f : Pixel -> Q) (out : list (list Pixel)) (i j : nat)
    (row : list Pixel) (p : Pixel) :
  out !! i = Some row -> row !! j = Some p ->
  (map (map f) out !! i ≫= fun r => r !! j) = Some (f p).
Proof.
  intros Hrow Hpix. rewrite list_lookup_fmap, Hrow. simpl.
  rewrite list_lookup_fmap. apply fmap_Some. exists p.
  split; [exact Hpix | reflexivity].
Qed.

(** X7. How the steps of preprocess_frame compose: the colour conversion
    exchanges the first and third sample of every pixel of the frame, and
    the returned tensor has one batch entry with three channels, where
    channel c holds at row i and column j the sample c of pixel (i, j) of the
    resized picture, mapped by x / 255 * 2 - 1. *)
Theorem preprocess_frame_entries (frame rgb out : list (list Pixel))
    (resize : Z * Z) :
  cvtColor_BGR2RGB frame = Some rgb ->
  cv2_resize rgb resize = Some out ->
  (forall i j row b g r,
     frame !! i = Some row -> row !! j = Some (b, g, r) ->
     exists row', rgb !! i = Some row' /\ row' !! j = Some (r, g, b)) /\
  exists ch0 ch1 ch2,
    preprocess_frame frame resize = Some [[ch0; ch1; ch2]] /\
    forall i j row c0 c1 c2,
      out !! i = Some row -> row !! j = Some (c0, c1, c2) ->
      (ch0 !! i ≫= fun r => r !! j) = Some (normalize (inject_Z c0)) /\
      (ch1 !! i ≫= fun r => r !! j) = Some (normalize (inject_Z c1)) /\
      (ch2 !! i ≫= fun r => r !! j) = Some (normalize (inject_Z c2)).
Proof.
  intros Hcvt Hres. split.
  { intros i j row b g r Hrow Hpix.
    apply (cvtColor_BGR2RGB_lookup frame rgb i j row b g r); assumption. }
  eexists _, _, _. split.
  { assert (Hrun : preprocess_frame frame resize
                   = Some (permute_0312
                             (normalize_tensor (newaxis_float out)))).
    { unfold preprocess_frame. rewrite Hcvt. simpl. rewrite Hres.
      reflexivity. }
    rewrite preprocess_channels in Hrun. exact Hrun. }
  intros i j row c0 c1 c2 Hrow Hpix.
  split; [ | split].
  - apply (channel_lookup (fun p : Pixel => normalize (inject_Z (fst (fst p))))
             out i j row (c0, c1, c2) Hrow Hpix).
  - apply (channel_lookup (fun p : Pixel => normalize (inject_Z (snd (fst p))))
             out i j row (c0, c1, c2) Hrow Hpix).
  - apply (channel_lookup (fun p : Pixel => normalize (inject_Z (snd p)))
             out i j row (c0, c1, c2) Hrow Hpix).
Qed.

(** *** Further properties: prediction steps and the loop *)

Lemma draw_points_from_pixels (points : list (Q * Q)) (visible : list bool)
    (colors : list (Z * Z * Z)) (idx : list nat) :
  forall frame frame',
    draw_points_from frame points visible colors idx = Some frame' ->
    pixels frame' = pixels frame.
Proof.
  induction idx as [ | i idx IH]; intros frame frame' Hd; simpl in Hd.
  - inversion Hd. reflexivity.
  - destruct (visible !! i) as [v | ]; [ | discriminate]. simpl in Hd.
    destruct v; simpl in Hd.
    + destruct (points !! i) as [p | ]; [ | discriminate]. simpl in Hd.
      destruct (colors !! i) as [c | ]; [ | discriminate]. simpl in Hd.
      apply IH in Hd. exact Hd.
    + apply IH in Hd. exact Hd.
Qed.

Lemma loop_body_inv (cap : VideoCapture) (qf : list QueryFeat)
    (hqf : HiresQueryFeats) (colors : list (Z * Z * Z)) (i : nat)
    (frame : Image) (st st' : LoopState) (stop : bool) :
  loop_body cap qf hqf colors i frame st = Some (st', stop) ->
  exists input ts vs frame',
    preprocess_frame frame (resize_height, resize_width) = Some input /\
    pixels frame' = frame /\
    stop = Z.eqb (Z.land (waitKey i) 255) ord_q /\
    st' = mkLoopState
            (tr_causal_context
               (estimate_trajectories (resize_height, resize_width)
                  (fst (get_feature_grids input))
                  (snd (get_feature_grids input))
                  qf hqf 64 (causal_state st) true))
            (predictions st ++
               [mkPrediction (mkTensor (length (heap st)) device)
                  (mkTensor (S (length (heap st))) device)])
            (frames st ++ [frame'])
            (heap_after_iteration (heap st) (frame_width cap)
               (frame_height cap) ts vs)
            (calls st ++ [CallPredict frame qf hqf (causal_state st)]).
Proof.
  intros Hb.
  destruct (online_model_predict (heap st) frame qf hqf (causal_state st))
    as [[[[t v] cc'] h1] | ] eqn:Hp.
  2: { unfold loop_body in Hb. rewrite Hp in Hb. discriminate. }
  destruct (online_model_predict_inv _ _ _ _ _ _ _ _ _ Hp)
    as (ts & vs & -> & -> & ->).
  rewrite (loop_body_eq _ _ _ _ _ _ _ ts vs cc' Hp) in Hb.
  destruct (draw_points _ _ vs colors) as [frame' | ] eqn:Hd;
    [ | discriminate].
  simpl in Hb. inversion Hb; subst st' stop. clear Hb.
  destruct (preprocess_frame frame (resize_height, resize_width))
    as [input | ] eqn:Hin.
  2: { unfold online_model_predict in Hp. rewrite Hin in Hp. discriminate. }
  rewrite (online_model_predict_eq _ _ _ _ _ input Hin) in Hp.
  simpl in Hp.
  destruct (last (tr_tracks _)) as [ts0 | ]; [ | discriminate].
  destruct (last (tr_occlusion _)) as [os | ]; [ | discriminate].
  destruct (last (tr_expected_dist _)) as [us | ]; [ | discriminate].
  simpl in Hp.
  destruct (postprocess_occlusions os us) as [vs0 | ]; [ | discriminate].
  simpl in Hp. inversion Hp as [[Hcc Happ]].
  exists input, ts, vs, frame'.
  split; [reflexivity | ].
  split; [apply draw_points_from_pixels in Hd; exact Hd | ].
  split; reflexivity.
Qed.

(** X10. One iteration of the loop, whenever it completes: it appends
    exactly one entry to predictions, referring to the two buffers
    allocated at the end of the store, and one frame whose picture is the
    frame that was read; it logs one prediction call made with the causal
    state the iteration started from; and it leaves every buffer that
    existed before, hence everything earlier predictions refer to, as it
    was. *)
Theorem loop_body_appends (cap : VideoCapture) (qf : list QueryFeat)
    (hqf : HiresQueryFeats) (colors : list (Z * Z * Z)) (i : nat)
    (frame : Image) (st st' : LoopState) (stop : bool) :
  loop_body cap qf hqf colors i frame st = Some (st', stop) ->
  (forall a b, heap st !! a = Some b -> heap st' !! a = Some b) /\
  (exists p, predictions st' = predictions st ++ [p] /\
             storage (pred_tracks p) = length (heap st) /\
             storage (pred_visibles p) = S (length (heap st))) /\
  (exists f, frames st' = frames st ++ [f] /\ pixels f = frame) /\
  calls st' = calls st ++ [CallPredict frame qf hqf (causal_state st)].
Proof.
  intros Hb.
  destruct (loop_body_inv _ _ _ _ _ _ _ _ _ Hb)
    as (input & ts & vs & frame' & _ & Hpix & _ & ->).
  simpl. split.
  - intros a b Hab.
    destruct (heap_after_iteration_extends (heap st) (frame_width cap)
                (frame_height cap) ts vs) as [x ->].
    apply lookup_app_l_Some. exact Hab.
  - split; [eexists; split; [reflexivity | split; reflexivity] | ].
    split; [exists frame'; split; [reflexivity | exact Hpix] | reflexivity].
Qed.

(** X11. The causal state is threaded through the loop: after an
    iteration the state's causal_state is the causal context the tracker
    returned for this frame, and the tracker computed it from the
    causal_state the iteration started with, the unchanged query features
    and chunk size 64. *)
Theorem loop_body_threads_causal_state (cap : VideoCapture)
    (qf : list QueryFeat) (hqf : HiresQueryFeats)
    (colors : list (Z * Z * Z)) (i : nat) (frame : Image)
    (st st' : LoopState) (stop : bool) :
  loop_body cap qf hqf colors i frame st = Some (st', stop) ->
  exists input,
    preprocess_frame frame (resize_height, resize_width) = Some input /\
    causal_state st' =
      tr_causal_context
        (estimate_trajectories (resize_height, resize_width)
           (fst (get_feature_grids input)) (snd (get_feature_grids input))
           qf hqf 64 (causal_state st) true).
Proof.
  intros Hb.
  destruct (loop_body_inv _ _ _ _ _ _ _ _ _ Hb)
    as (input & ts & vs & frame' & Hin & _ & _ & ->).
  exists input. split; [exact Hin | reflexivity].
Qed.

(** X12. The quit key: when the key code returned while a frame is shown
    has low byte 113 ('q'), that iteration is the last one, whatever frames
    the video still holds. *)
Theorem quit_key_ends_the_loop (cap : VideoCapture) (qf : list QueryFeat)
    (hqf : HiresQueryFeats) (colors : list (Z * Z * Z)) (i : nat)
    (frame : Image) (rest : list (option Image)) (st : LoopState) :
  Z.land (waitKey i) 255 = ord_q ->
  stream_loop cap qf hqf colors (Some frame :: rest) i st
  = stream_loop cap qf hqf colors [Some frame] i st /\
  forall st1,
    stream_loop cap qf hqf colors (Some frame :: rest) i st = Some st1 ->
    is_opened cap = true ->
    length (predictions st1) = S (length (predictions st)).
Proof.
  intros Hkey. simpl.
  destruct (is_opened cap); simpl.
  2: { split; [reflexivity | ]. intros st1 _ Hopen. discriminate. }
  destruct (loop_body cap qf hqf colors i frame st) as [[st1 stop] | ] eqn:Hb;
    simpl.
  2: { split; [reflexivity | ]. intros st1 Hst1. discriminate. }
  destruct (loop_body_inv _ _ _ _ _ _ _ _ _ Hb)
    as (input & ts & vs & frame' & _ & _ & Hstop & Hst).
  rewrite Hkey, Z.eqb_refl in Hstop. subst stop. split; [reflexivity | ].
  intros st2 Hst2 _. inversion Hst2; subst st2. rewrite Hst. simpl.
  rewrite length_app. simpl. lia.
Qed.

Lemma stream_loop_counts (cap : VideoCapture) (init : Call)
    (query_points : list (Z * Z * Z)) (fg : FeatureGrid) (hf : HiresFeats)
    (colors : list (Z * Z * Z)) (imgs : list Image) :
  one_output_per_point ->
  length colors = length query_points ->
  frames_preprocess (map Some imgs) ->
  is_opened cap = true ->
  (forall i, Z.land (waitKey i) 255 <> ord_q) ->
  let qf := fst (get_query_features query_points fg hf) in
  let hqf := snd (get_query_features query_points fg hf) in
  forall (i : nat) (st : LoopState),
    run_invariant init qf hqf (length query_points) st ->
    exists st',
      stream_loop cap qf hqf colors (map Some imgs) i st = Some st' /\
      length (predictions st')
      = (length (predictions st) + length imgs)%nat /\
      map pixels (frames st') = map pixels (frames st) ++ imgs.
Proof.
  intros Hmodel Hcol Hpre Hopen Hkey qf hqf.
  induction imgs as [ | img imgs IH]; intros i st Hinv.
  - exists st. simpl. rewrite Hopen. simpl.
    split; [reflexivity | ]. split; [lia | rewrite app_nil_r; reflexivity].
  - simpl. rewrite Hopen. simpl.
    destruct (loop_body_step cap init query_points fg hf colors i img st
                Hmodel Hcol) as (st1 & stop & Hbody & Hinv1).
    { apply Hpre. apply list_elem_of_here. }
    { exact Hinv. }
    fold qf hqf in Hbody. rewrite Hbody. simpl.
    destruct (loop_body_inv _ _ _ _ _ _ _ _ _ Hbody)
      as (input & ts & vs & frame' & _ & Hpix & Hstop & Hst).
    assert (Hno : stop = false).
    { rewrite Hstop. apply Z.eqb_neq. apply Hkey. }
    rewrite Hno.
    destruct (IH (fun f Hf => Hpre f (list_elem_of_further _ _ _ Hf))
                (S i) st1 Hinv1) as (st' & Hloop & Hcount & Hframes).
    exists st'. split; [exact Hloop | ].
    rewrite Hcount, Hframes, Hst. simpl.
    rewrite length_app, map_app, <- app_assoc. simpl. rewrite Hpix.
    split; [lia | reflexivity].
Qed.

(** X13. One prediction per frame: when nobody presses the quit key and
    the video yields the frames imgs and then ends, a complete run makes
    exactly one prediction per frame and stores the frames in the order
    they were read (the first frame is used for the initialisation and
    read again by the loop). *)
Theorem one_prediction_per_frame (cap : VideoCapture) (frame0 : Image)
    (imgs : list Image) :
  one_output_per_point ->
  randint_rows ->
  is_opened cap = true ->
  reads cap = map Some (frame0 :: imgs) ->
  frames_preprocess (reads cap) ->
  (forall i, Z.land (waitKey i) 255 <> ord_q) ->
  exists st,
    main cap = Some st /\
    length (predictions st) = S (length imgs) /\
    map pixels (frames st) = frame0 :: imgs.
Proof.
  intros Hmodel [Hcolumn Hcolors] Hopen Hreads Hpre Hkey.
  destruct (sample_random_points_in_main Hcolumn) as (qp & Hqp & Hlen).
  assert (Hfirst : first_read cap = Some frame0).
  { unfold first_read. rewrite Hopen, Hreads. reflexivity. }
  destruct (Hpre frame0) as [input Hinput].
  { rewrite Hreads. apply list_elem_of_here. }
  destruct (get_feature_grids input) as [fg hf] eqn:Hgrid.
  destruct (get_query_features qp fg hf) as [qf hqf] eqn:Hq.
  assert (Hinit : online_model_init frame0 qp = Some (qf, hqf)).
  { unfold online_model_init. rewrite Hinput. simpl. rewrite Hgrid, Hq.
    reflexivity. }
  rewrite Hreads in Hpre.
  destruct (stream_loop_counts cap (CallInit frame0 qp) qp fg hf
              (randint_colors 0 255 (Z.to_nat num_points)) (frame0 :: imgs)
              Hmodel) with (i := 0%nat)
      (st := mkLoopState
               (construct_initial_causal_state (Z.of_nat (length qp))
                  (Z.of_nat (length qf) - 1)) [] [] [] [CallInit frame0 qp])
    as (st & Hloop & Hcount & Hframes).
  { rewrite Hcolors, Hlen. reflexivity. }
  { exact Hpre. }
  { exact Hopen. }
  { exact Hkey. }
  { split; [constructor | ]. exists []. simpl. auto. }
  rewrite Hq in Hloop. simpl in Hloop, Hcount, Hframes.
  exists st. split.
  - unfold main. rewrite Hqp. simpl. rewrite Hfirst, Hinit. simpl.
    rewrite Hreads. exact Hloop.
  - split; [exact Hcount | exact Hframes].
Qed.

(** X14. Without a first frame there is no run: when the video is not
    open, is empty, or its first read fails, the main block raises (inside
    online_model_init, on the missing frame) before any prediction is
    made. *)
Theorem main_needs_first_frame (cap : VideoCapture) :
  is_opened cap = false \/ reads cap = [] \/
  (exists rest, reads cap = None :: rest) ->
  main cap = None.
Proof.
  intros Hcap. unfold main.
  destruct (sample_random_points 0 resize_height resize_width num_points)
    as [qp | ]; [ | reflexivity].
  simpl.
  assert (Hfirst : first_read cap = None).
  { unfold first_read.
    destruct Hcap as [-> | [-> | [rest ->]]]; [reflexivity | | ];
      destruct (is_opened cap); reflexivity. }
  rewrite Hfirst. reflexivity.
Qed.

Lemma draw_points_from_only_adds (points : list (Q * Q))
    (visible : list bool) (colors : list (Z * Z * Z)) (idx : list nat) :
  forall frame frame',
    draw_points_from frame points visible colors idx = Some frame' ->
    exists drawn,
      overlay frame' = overlay frame ++ drawn /\
      (length drawn <= length idx)%nat /\
      Forall (fun c => radius c = 5 /\ thickness c = -1 /\
                       exists i p, points !! i = Some p /\
                                   visible !! i = Some true /\
                                   colors !! i = Some (color c) /\
                                   center c = (Qtrunc (fst p),
                                               Qtrunc (snd p)))
             drawn.
Proof.
  induction idx as [ | i idx IH]; intros frame frame' Hd; simpl in Hd.
  - inversion Hd. exists []. rewrite app_nil_r. auto.
  - destruct (visible !! i) as [v | ] eqn:Hv; [ | discriminate].
    simpl in Hd. destruct v; simpl in Hd.
    + destruct (points !! i) as [p | ] eqn:Hp; [ | discriminate].
      simpl in Hd.
      destruct (colors !! i) as [c | ] eqn:Hc; [ | discriminate].
      simpl in Hd. apply IH in Hd.
      destruct Hd as (drawn & Hov & Hlen & Hall).
      exists (mkCircle (Qtrunc (fst p), Qtrunc (snd p)) 5 c (-1) :: drawn).
      split; [rewrite Hov; simpl; rewrite <- app_assoc; reflexivity | ].
      split; [simpl; lia | ].
      constructor; [ | exact Hall]. simpl.
      split; [reflexivity | ]. split; [reflexivity | ].
      exists i, p. auto.
    + apply IH in Hd. destruct Hd as (drawn & Hov & Hlen & Hall).
      exists drawn. split; [exact Hov | ]. split; [simpl; lia | exact Hall].
Qed.

(** X15. Whatever the lengths of the arrays, when draw_points returns it
    has only added circles: the picture is the same, the circles that
    were on the frame are still there, in front, at most one circle per
    point was added, and each added circle is filled, has radius 5, and is
    the circle of some index whose flag is True, at that point's truncated
    coordinates and in that index's colour. *)
Theorem draw_points_only_adds (frame frame' : Frame)
    (points : list (Q * Q)) (visible : list bool)
    (colors : list (Z * Z * Z)) :
  draw_points frame points visible colors = Some frame' ->
  pixels frame' = pixels frame /\
  exists drawn,
    overlay frame' = overlay frame ++ drawn /\
    (length drawn <= length points)%nat /\
    Forall (fun c => radius c = 5 /\ thickness c = -1 /\
                     exists i p, points !! i = Some p /\
                                 visible !! i = Some true /\
                                 colors !! i = Some (color c) /\
                                 center c = (Qtrunc (fst p),
                                             Qtrunc (snd p)))
           drawn.
Proof.
  intros Hd. unfold draw_points in Hd. split.
  - apply draw_points_from_pixels in Hd. exact Hd.
  - apply draw_points_from_only_adds in Hd.
    destruct Hd as (drawn & Hov & Hlen & Hall).
    exists drawn. rewrite length_seq in Hlen. auto.
Qed.

Lemma stream_loop_fresh_buffers (cap : VideoCapture) (qf : list QueryFeat)
    (hqf : HiresQueryFeats) (colors : list (Z * Z * Z))
    (rs : list (option Image)) :
  forall (i : nat) (st st' : LoopState),
    stream_loop cap qf hqf colors rs i st = Some st' ->
    NoDup (flat_map (fun p => [storage (pred_tracks p);
                               storage (pred_visibles p)])
                    (predictions st)) ->
    Forall (fun a => (a < length (heap st))%nat)
           (flat_map (fun p => [storage (pred_tracks p);
                                storage (pred_visibles p)])
                     (predictions st)) ->
    NoDup (flat_map (fun p => [storage (pred_tracks p);
                               storage (pred_visibles p)])
                    (predictions st')) /\
    Forall (fun a => (a < length (heap st'))%nat)
           (flat_map (fun p => [storage (pred_tracks p);
                                storage (pred_visibles p)])
                     (predictions st')).
Proof.
  induction rs as [ | r rs IH]; intros i st st' Hloop Hnd Hlt;
    simpl in Hloop.
  - destruct (is_opened cap); inversion Hloop; subst; auto.
  - destruct (is_opened cap); simpl in Hloop;
      [ | inversion Hloop; subst; auto].
    destruct r as [frame | ]; [ | inversion Hloop; subst; auto].
    destruct (loop_body cap qf hqf colors i frame st)
      as [[st1 stop] | ] eqn:Hb; simpl in Hloop; [ | discriminate].
    destruct (loop_body_inv _ _ _ _ _ _ _ _ _ Hb)
      as (input & ts & vs & frame' & _ & _ & _ & Hst).
    assert (Hinv1 :
      NoDup (flat_map (fun p => [storage (pred_tracks p);
                                 storage (pred_visibles p)])
                      (predictions st1)) /\
      Forall (fun a => (a < length (heap st1))%nat)
             (flat_map (fun p => [storage (pred_tracks p);
                                  storage (pred_visibles p)])
                       (predictions st1))).
    { rewrite Hst. simpl. rewrite flat_map_app. simpl.
      destruct (heap_after_iteration_extends (heap st) (frame_width cap)
                  (frame_height cap) ts vs) as [x Hx].
      assert (Hgrow : (length (heap st) + 2
                       <= length (heap_after_iteration (heap st)
                                    (frame_width cap) (frame_height cap)
                                    ts vs))%nat).
      { unfold heap_after_iteration. destruct device;
          rewrite length_app; simpl; lia. }
      split.
      - apply NoDup_app. split; [exact Hnd | ]. split.
        + intros a Ha Hin. rewrite Forall_forall in Hlt.
          specialize (Hlt a Ha).
          apply list_elem_of_In in Hin. simpl in Hin.
          destruct Hin as [<- | [<- | []]]; lia.
        + apply NoDup_cons. split.
          * intros Hin. apply list_elem_of_singleton in Hin. lia.
          * apply NoDup_singleton.
      - apply Forall_app. split.
        + eapply Forall_impl; [exact Hlt | ]. intros a Ha. simpl in Ha. lia.
        + repeat constructor; lia. }
    destruct stop.
    + inversion Hloop; subst. exact Hinv1.
    + destruct Hinv1 as [Hnd1 Hlt1]. apply (IH (S i) st1 st' Hloop Hnd1 Hlt1).
Qed.

(** X16. Every prediction has buffers of its own: at the end of a run the
    tracks and visibles tensors of all entries of the predictions list
    refer to pairwise distinct buffers of the store, so writing through one
    entry cannot change another. *)
Theorem predictions_do_not_share_buffers (cap : VideoCapture)
    (st : LoopState) :
  main cap = Some st ->
  NoDup (flat_map (fun p => [storage (pred_tracks p);
                             storage (pred_visibles p)])
                  (predictions st)) /\
  Forall (fun a => (a < length (heap st))%nat)
         (flat_map (fun p => [storage (pred_tracks p);
                              storage (pred_visibles p)])
                   (predictions st)).
Proof.
  intros Hmain. unfold main in Hmain.
  destruct (sample_random_points 0 resize_height resize_width num_points)
    as [qp | ]; [ | discriminate].
  simpl in Hmain.
  destruct (first_read cap) as [frame | ]; [ | discriminate].
  destruct (online_model_init frame qp) as [[qf hqf] | ]; [ | discriminate].
  simpl in Hmain.
  apply (stream_loop_fresh_buffers _ _ _ _ _ _ _ _ Hmain).
  - simpl. apply NoDup_nil. exact I.
  - simpl. constructor.
Qed.

End Script.

(** ** The script on concrete inputs *)

(** The still tracker answers per query point. *)
Lemma still_tracker_per_point :
  one_output_per_point still_query_features still_trajectories.
Proof.
  intros qp fg hf size fg' hf' chunk cc b. simpl.
  repeat split; try discriminate;
    repeat constructor; rewrite ?length_map; reflexivity.
Qed.

(** The constant generator returns arrays of the requested length. *)
Lemma lowest_rows : randint_rows lowest_column lowest_colors.
Proof.
  split; apply length_replicate.
Qed.

(** The one-pixel frame can be resized and normalised. *)
Lemma demo_frames_preprocess :
  frames_preprocess resize_nearest (reads demo_capture).
Proof.
  intros frame Hin. simpl in Hin.
  apply list_elem_of_singleton in Hin. inversion Hin; subst.
  eexists. reflexivity.
Qed.

(** The rule on two elements: logits (0, 0) give False, logits (-3, -3)
    give True. *)
Lemma postprocess_occlusions_rule_witness :
  exists visibles,
    postprocess_occlusions [0%R; (- 3)%R] [0%R; (- 3)%R] = Some visibles /\
    length visibles = 2%nat /\
    visibles !! 0%nat = Some false /\
    visibles !! 1%nat = Some true.
Proof.
  destruct (postprocess_occlusions_rule [0%R; (- 3)%R] [0%R; (- 3)%R]
              1 (- 3)%R (- 3)%R eq_refl eq_refl eq_refl)
    as (vs & Hrun & Hlen & _ & _ & Hlow & _).
  destruct (postprocess_occlusions_rule [0%R; (- 3)%R] [0%R; (- 3)%R]
              0 0%R 0%R eq_refl eq_refl eq_refl)
    as (vs' & Hrun' & _ & _ & _ & _ & Hhigh).
  rewrite Hrun in Hrun'. inversion Hrun'; subst vs'.
  exists vs. split; [exact Hrun | ]. split; [exact Hlen | ].
  split; [apply Hhigh; lra | apply Hlow; lra].
Defined.


(** Two points, the second one hidden: one circle is drawn, at
    (int(1.7), int(2.2)) = (1, 2), in the colour of the first point. *)
Lemma draw_points_only_visible_witness :
  exists frame',
    draw_points (mkFrame demo_frame [])
      [(17 # 10, 22 # 10); (3 # 1, 4 # 1)]%Q [true; false] demo_colors
    = Some frame' /\
    pixels frame' = demo_frame /\
    overlay frame' = [mkCircle (1, 2) 5 (255, 0, 0) (-1)].
Proof.
  destruct (draw_points_only_visible (mkFrame demo_frame [])
              [(17 # 10, 22 # 10); (3 # 1, 4 # 1)]%Q [true; false]
              demo_colors eq_refl eq_refl)
    as (frame' & drawn & Hrun & Hpix & Hov & Hdrawn & _).
  exists frame'. split; [exact Hrun | ]. split; [exact Hpix | ].
  rewrite Hov, Hdrawn. reflexivity.
Defined.

(** preprocess_frame with resize = (2, 3), that is height 2 and width 3 as
    the callers order the pair: the tensor has 3 rows and 2 columns. *)
Lemma preprocess_frame_layout_witness :
  exists t,
    preprocess_frame resize_nearest demo_frame (2, 3) = Some t /\
    shape_NCHW t = (1, 3, 3, 2)%nat /\
    all_NCHW (fun v => (- (1) <= v <= 1)%Q) 3 3 2 t.
Proof.
  destruct (preprocess_frame_layout resize_nearest demo_frame
              [[(30, 20, 10)]]
              [[(30, 20, 10); (30, 20, 10)]; [(30, 20, 10); (30, 20, 10)];
               [(30, 20, 10); (30, 20, 10)]]
              (2, 3) eq_refl eq_refl eq_refl)
    as (t & Hrun & _ & Hall).
  - repeat constructor.
  - repeat constructor; simpl; lia.
  - exists t. split; [exact Hrun | ]. split; [ | exact Hall].
    vm_compute in Hrun. inversion Hrun. reflexivity.
Defined.

(** num_points = 2: the grid has int(sqrt(2)) ** 2 = 1 point, the time
    column has two rows, and the function raises. *)
Lemma sample_random_points_raises_off_squares_witness :
  int_sqrt 2 = Some 1%nat /\
  length (lowest_column 0 1 2) = 2%nat /\
  sample_random_points lowest_column 0 4 4 2 = None.
Proof.
  split; [vm_compute; reflexivity | ]. split; [reflexivity | ].
  apply (sample_random_points_raises_off_squares lowest_column 0 4 4 2 1).
  - vm_compute. reflexivity.
  - simpl. lia.
  - reflexivity.
Defined.

(** The still tracker has a coarse level of zeros and a fine level with the
    queried places: only the fine level is returned. *)
Lemma online_model_predict_finest_level_witness :
  exists t v,
    online_model_predict resize_nearest false still_feature_grids
      still_trajectories [] demo_frame
      (fst (still_query_features demo_query_points tt tt)) tt 0%nat
    = Some (t, v, 1%nat,
            [BufTracks [(10 # 1, 10 # 1); (30 # 1, 20 # 1)]%Q;
             BufBools [visible_at (- 2) (- 2); visible_at (- 2) (- 2)]]) /\
    read_tracks
      [BufTracks [(10 # 1, 10 # 1); (30 # 1, 20 # 1)]%Q;
       BufBools [visible_at (- 2) (- 2); visible_at (- 2) (- 2)]] t
    = Some [(10 # 1, 10 # 1); (30 # 1, 20 # 1)]%Q /\
    read_bools
      [BufTracks [(10 # 1, 10 # 1); (30 # 1, 20 # 1)]%Q;
       BufBools [visible_at (- 2) (- 2); visible_at (- 2) (- 2)]] v
    = Some [visible_at (- 2) (- 2); visible_at (- 2) (- 2)].
Proof.
  eapply (online_model_predict_finest_level resize_nearest false
            still_feature_grids still_trajectories [] demo_frame
            (fst (still_query_features demo_query_points tt tt)) tt
            0%nat 1%nat _
            [[(0 # 1, 0 # 1); (0 # 1, 0 # 1)]%Q]
            [[0%R; 0%R]] [[0%R; 0%R]]).
  - reflexivity.
  - reflexivity.
  - reflexivity.
Defined.

(** C3 on a machine without CUDA: a 512 by 512 video, a tracker that
    reports the tracks (10, 10) and (30, 20).  The entry appended to the
    predictions list refers to buffer 0; when the iteration ends that
    buffer holds the tracks rescaled by 512 / 256, not the tracks that were
    appended. *)
Lemma prediction_entry_after_iteration_witness :
  exists st' stop,
    loop_body resize_nearest no_key false still_feature_grids
      still_trajectories demo_capture
      (fst (still_query_features demo_query_points tt tt)) tt demo_colors
      0 demo_frame
      (mkLoopState (QueryFeat := list (Q * Q)) (HiresQueryFeats := unit)
         0%nat [] [] [] [])
    = Some (st', stop) /\
    predictions st' = [mkPrediction (mkTensor 0 cpu) (mkTensor 1 cpu)] /\
    read_tracks (heap st') (mkTensor 0 cpu)
    = Some (rescale_tracks 512 512 [(10 # 1, 10 # 1); (30 # 1, 20 # 1)]%Q) /\
    (rescale (10 # 1) 512 resize_width == 20 # 1)%Q /\
    ~ (rescale (10 # 1) 512 resize_width == 10 # 1)%Q.
Proof.
  destruct (prediction_entry_after_iteration resize_nearest no_key false
              still_feature_grids still_trajectories demo_capture
              (fst (still_query_features demo_query_points tt tt)) tt
              demo_colors 0 demo_frame
              (mkLoopState (QueryFeat := list (Q * Q))
                 (HiresQueryFeats := unit) 0%nat [] [] [] [])
              (mkTensor 0 cpu) (mkTensor 1 cpu) 1%nat
              [BufTracks [(10 # 1, 10 # 1); (30 # 1, 20 # 1)]%Q;
               BufBools [visible_at (- 2) (- 2); visible_at (- 2) (- 2)]]
              [(10 # 1, 10 # 1); (30 # 1, 20 # 1)]%Q
              [visible_at (- 2) (- 2); visible_at (- 2) (- 2)]
              eq_refl eq_refl eq_refl eq_refl eq_refl)
    as (st' & stop & Hrun & Hpred & _ & Htracks).
  exists st', stop. split; [exact Hrun | ]. split; [exact Hpred | ].
  split; [exact Htracks | ]. split; [reflexivity | discriminate].
Defined.

(** A complete run on the one-frame video with the still tracker. *)
Lemma prediction_arrays_have_num_points_witness :
  exists query_points st,
    sample_random_points lowest_column 0 resize_height resize_width num_points
      = Some query_points /\
    length query_points = 256%nat /\
    main resize_nearest no_key lowest_column lowest_colors false
      still_feature_grids still_query_features still_trajectories
      still_initial_causal_state demo_capture = Some st /\
    forall p, p ∈ predictions st ->
      exists tracks visibles,
        read_tracks (heap st) (pred_tracks p) = Some tracks /\
        read_bools (heap st) (pred_visibles p) = Some visibles /\
        length tracks = 256%nat /\ length visibles = 256%nat.
Proof.
  exact (prediction_arrays_have_num_points resize_nearest no_key
           lowest_column lowest_colors false
           still_feature_grids still_query_features still_trajectories
           still_initial_causal_state demo_capture demo_frame
           still_tracker_per_point lowest_rows demo_frames_preprocess
           eq_refl).
Defined.


(** ** Further properties of the drawing and of the visibility rule *)

Lemma draw_points_from_missing_flag (points : list (Q * Q))
    (visible : list bool) (colors : list (Z * Z * Z)) (n : nat) :
  forall (k : nat) (frame : Frame),
    (k <= length visible)%nat -> (length visible < k + n)%nat ->
    draw_points_from frame points visible colors (seq k n) = None.
Proof.
  induction n as [ | n IH]; intros k frame Hk Hn; [lia | ].
  simpl. destruct (visible !! k) as [v | ] eqn:Hv; simpl; [ | reflexivity].
  apply lookup_lt_Some in Hv.
  destruct v; simpl.
  - destruct (points !! k) as [p | ]; simpl; [ | reflexivity].
    destruct (colors !! k) as [c | ]; simpl; [ | reflexivity].
    apply IH; lia.
  - apply IH; lia.
Qed.

(** X1. draw_points visits every index of points: when visible has fewer
    entries than points, the lookup visible[i] runs off the array and
    draw_points raises, whatever was drawn before. *)
Theorem draw_points_short_visible_raises (frame : Frame)
    (points : list (Q * Q)) (visible : list bool)
    (colors : list (Z * Z * Z)) :
  (length visible < length points)%nat ->
  draw_points frame points visible colors = None.
Proof.
  intros Hlen. unfold draw_points.
  apply draw_points_from_missing_flag; lia.
Qed.

Lemma draw_points_short_visible_raises_witness :
  draw_points (mkFrame demo_frame [])
    [(1 # 1, 2 # 1); (3 # 1, 4 # 1)]%Q [true] demo_colors = None.
Proof.
  apply draw_points_short_visible_raises. simpl. lia.
Defined.

Lemma draw_points_from_all_hidden (points : list (Q * Q))
    (visible : list bool) (colors : list (Z * Z * Z)) (frame : Frame)
    (n : nat) :
  Forall (fun v : bool => v = false) visible ->
  forall k : nat,
    (k + n <= length visible)%nat ->
    draw_points_from frame points visible colors (seq k n) = Some frame.
Proof.
  intros Hall. induction n as [ | n IH]; intros k Hk; [reflexivity | ].
  simpl. destruct (lookup_lt_is_Some_2 visible k) as [v Hv]; [lia | ].
  rewrite Hv. simpl.
  rewrite Forall_forall in Hall.
  rewrite (Hall v) by (apply list_elem_of_lookup; exists k; exact Hv).
  simpl. apply IH. lia.
Qed.

(** X2. When every flag is False (and there is a flag for every point),
    draw_points returns the frame exactly as it received it and never
    looks at the colours: the colours array may even be empty. *)
Theorem draw_points_all_hidden (frame : Frame) (points : list (Q * Q))
    (visible : list bool) (colors : list (Z * Z * Z)) :
  Forall (fun v : bool => v = false) visible ->
  (length points <= length visible)%nat ->
  draw_points frame points visible colors = Some frame.
Proof.
  intros Hall Hlen. unfold draw_points.
  apply draw_points_from_all_hidden; [exact Hall | lia].
Qed.

Lemma draw_points_all_hidden_witness :
  draw_points (mkFrame demo_frame [mkCircle (1, 2) 5 (255, 0, 0) (-1)])
    [(1 # 1, 2 # 1); (3 # 1, 4 # 1)]%Q [false; false; false] []
  = Some (mkFrame demo_frame [mkCircle (1, 2) 5 (255, 0, 0) (-1)]).
Proof.
  apply draw_points_all_hidden; [repeat constructor | simpl; lia].
Defined.

Lemma visible_at_comm (o e : R) : visible_at o e = visible_at e o.
Proof.
  unfold visible_at. rewrite Rmult_comm. reflexivity.
Qed.

Lemma broadcast2_comm {A C} (f : A -> A -> C) (xs ys : list A) :
  (forall a b, f a b = f b a) ->
  broadcast2 f xs ys = broadcast2 f ys xs.
Proof.
  intros Hf. unfold broadcast2.
  destruct (Nat.eqb_spec (length xs) (length ys)) as [Heq | Hne].
  - rewrite <- Heq, Nat.eqb_refl. f_equal. clear Heq.
    revert ys. induction xs as [ | x xs IH]; intros [ | y ys]; simpl;
      try reflexivity.
    rewrite Hf, IH. reflexivity.
  - destruct (Nat.eqb_spec (length ys) (length xs)) as [Heq | _];
      [congruence | ].
    destruct xs as [ | x [ | x' xs]]; destruct ys as [ | y [ | y' ys]];
      simpl in Hne; try congruence; try reflexivity.
    all: simpl; f_equal; f_equal;
      [apply Hf | f_equal; [apply Hf | apply map_ext; intros a; apply Hf]].
Qed.

(** X3. The rule is symmetric: exchanging the occlusion logits and the
    expected-distance logits gives the same flags, and raises in the same
    cases. *)
Theorem postprocess_occlusions_symmetric (occlusions expected_dist : list R) :
  postprocess_occlusions occlusions expected_dist
  = postprocess_occlusions expected_dist occlusions.
Proof.
  unfold postprocess_occlusions. apply broadcast2_comm.
  exact visible_at_comm.
Qed.

(** X4. postprocess_occlusions returns flags exactly when the two tensors
    have the same size or one of them has a single element (which is then
    used against every element of the other); otherwise it raises.  The
    result has the size of the other tensor. *)
Theorem postprocess_occlusions_sizes (occlusions expected_dist : list R) :
  (is_Some (postprocess_occlusions occlusions expected_dist) <->
   length occlusions = length expected_dist \/
   length occlusions = 1%nat \/ length expected_dist = 1%nat) /\
  (forall visibles,
     postprocess_occlusions occlusions expected_dist = Some visibles ->
     length visibles =
       if Nat.eqb (length occlusions) 1 then length expected_dist
       else length occlusions).
Proof.
  unfold postprocess_occlusions, broadcast2.
  destruct (Nat.eqb_spec (length occlusions) (length expected_dist))
    as [Heq | Hne].
  - split.
    + split; [intros _; left; exact Heq | intros _; eexists; reflexivity].
    + intros vs Hvs. inversion Hvs; subst. rewrite length_zip_with.
      destruct (Nat.eqb_spec (length occlusions) 1); lia.
  - destruct occlusions as [ | o [ | o' os]];
      destruct expected_dist as [ | e [ | e' es]]; simpl in *;
      try congruence.
    all: split; [split | ].
    all: try (intros [x Hx]; discriminate).
    all: try (intros _; eexists; reflexivity).
    all: try (intros _; auto; fail).
    all: try (intros [H | [H | H]]; simpl in H; congruence).
    all: intros vs Hvs; try discriminate;
      inversion Hvs; simpl; rewrite ?length_map; reflexivity.
Qed.

Lemma one_minus_sigmoid_pos (x : R) : (0 < 1 - sigmoid x)%R.
Proof.
  rewrite one_minus_sigmoid. apply Rinv_0_lt_compat.
  pose proof (exp_pos x). lra.
Qed.

Lemma one_minus_sigmoid_antitone (x y : R) :
  (x <= y)%R -> (1 - sigmoid y <= 1 - sigmoid x)%R.
Proof.
  intros Hxy. rewrite !one_minus_sigmoid.
  pose proof (exp_pos x) as Hx.
  assert (Hexp : (exp x <= exp y)%R).
  { destruct Hxy as [Hlt | Heq].
    - left. apply exp_increasing. exact Hlt.
    - rewrite Heq. right. reflexivity. }
  apply Rinv_le_contravar; lra.
Qed.

(** X5. Raising a logit never makes a point visible: a point that is
    visible with logits (o', e') is visible with any logits o <= o' and
    e <= e'. *)
Theorem visible_at_antitone (o o' e e' : R) :
  (o <= o')%R -> (e <= e')%R ->
  visible_at o' e' = true -> visible_at o e = true.
Proof.
  intros Ho He Hv. unfold visible_at in *.
  apply Rgtb_true_iff in Hv. apply Rgtb_true_iff.
  pose proof (one_minus_sigmoid_antitone o o' Ho) as H1.
  pose proof (one_minus_sigmoid_antitone e e' He) as H2.
  pose proof (one_minus_sigmoid_pos o') as P1.
  pose proof (one_minus_sigmoid_pos e') as P2.
  assert (H : ((1 - sigmoid o') * (1 - sigmoid e')
               <= (1 - sigmoid o) * (1 - sigmoid e))%R).
  { apply Rmult_le_compat; lra. }
  lra.
Qed.

Lemma visible_at_antitone_witness :
  visible_at (- 5) (- 4) = true.
Proof.
  apply (visible_at_antitone (- 5) (- 2) (- 4) (- 2)); try lra.
  apply visible_at_low; lra.
Defined.

(** X6. A visible point has both logits negative: as soon as the occlusion
    logit or the expected-distance logit is zero or more, the point is not
    visible, whatever the other logit is. *)
Theorem visible_at_needs_negative_logits (o e : R) :
  visible_at o e = true -> (o < 0)%R /\ (e < 0)%R.
Proof.
  intros Hv. split; apply Rnot_le_lt; intros Hge.
  - rewrite (visible_at_high o e Hge) in Hv. discriminate.
  - rewrite visible_at_comm, (visible_at_high e o Hge) in Hv. discriminate.
Qed.

Lemma visible_at_needs_negative_logits_witness :
  (- 3 < 0)%R /\ (- 2 < 0)%R.
Proof.
  apply (visible_at_needs_negative_logits (- 3) (- 2)).
  apply visible_at_low; lra.
Defined.

(** ** The further properties on concrete inputs *)

(** The frame's pixel is (10, 20, 30) in BGR order: channel 0 of the tensor
    holds the normalised 30. *)
Lemma preprocess_frame_entries_witness :
  exists ch0 ch1 ch2,
    preprocess_frame resize_nearest demo_frame (2, 3)
    = Some [[ch0; ch1; ch2]] /\
    (ch0 !! 2%nat ≫= fun r => r !! 1%nat) = Some (normalize (inject_Z 30)) /\
    (ch1 !! 2%nat ≫= fun r => r !! 1%nat) = Some (normalize (inject_Z 20)) /\
    (ch2 !! 2%nat ≫= fun r => r !! 1%nat) = Some (normalize (inject_Z 10)).
Proof.
  destruct (preprocess_frame_entries resize_nearest demo_frame
              [[(30, 20, 10)]]
              [[(30, 20, 10); (30, 20, 10)]; [(30, 20, 10); (30, 20, 10)];
               [(30, 20, 10); (30, 20, 10)]]
              (2, 3) eq_refl eq_refl)
    as (_ & ch0 & ch1 & ch2 & Hrun & Hentries).
  exists ch0, ch1, ch2. split; [exact Hrun | ].
  apply (Hentries 2%nat 1%nat [(30, 20, 10); (30, 20, 10)] 30 20 10);
    reflexivity.
Defined.

(** One iteration on the one-frame video completes. *)
Lemma demo_iteration_runs (key : nat -> Z) :
  exists st' stop,
    loop_body resize_nearest key false still_feature_grids
      still_trajectories demo_capture
      (fst (still_query_features demo_query_points tt tt)) tt demo_colors
      0 demo_frame
      (mkLoopState 0%nat [] [] [] [CallInit demo_frame demo_query_points])
    = Some (st', stop).
Proof.
  destruct (loop_body_step resize_nearest key false still_feature_grids
              still_query_features still_trajectories demo_capture
              (CallInit demo_frame demo_query_points) demo_query_points
              tt tt demo_colors 0 demo_frame
              (mkLoopState 0%nat [] [] [] [CallInit demo_frame
                                             demo_query_points])
              still_tracker_per_point eq_refl)
    as (st' & stop & Hrun & _).
  - eexists. reflexivity.
  - split; [constructor | ]. exists []. simpl. auto.
  - exists st', stop. exact Hrun.
Qed.

Lemma loop_body_appends_witness :
  exists st' stop,
    loop_body resize_nearest no_key false still_feature_grids
      still_trajectories demo_capture
      (fst (still_query_features demo_query_points tt tt)) tt demo_colors
      0 demo_frame
      (mkLoopState 0%nat [] [] [] [CallInit demo_frame demo_query_points])
    = Some (st', stop) /\
    (exists p, predictions st' = [p] /\
               storage (pred_tracks p) = 0%nat /\
               storage (pred_visibles p) = 1%nat) /\
    (exists f, frames st' = [f] /\ pixels f = demo_frame) /\
    calls st' = [CallInit demo_frame demo_query_points;
                 CallPredict demo_frame
                   (fst (still_query_features demo_query_points tt tt))
                   tt 0%nat].
Proof.
  destruct (demo_iteration_runs no_key) as (st' & stop & Hrun).
  exists st', stop. split; [exact Hrun | ].
  destruct (loop_body_appends _ _ _ _ _ _ _ _ _ _ _ _ _ _ Hrun)
    as (_ & Hp & Hf & Hc).
  split; [exact Hp | ]. split; [exact Hf | exact Hc].
Defined.

Lemma loop_body_threads_causal_state_witness :
  exists st' stop,
    loop_body resize_nearest no_key false still_feature_grids
      still_trajectories demo_capture
      (fst (still_query_features demo_query_points tt tt)) tt demo_colors
      0 demo_frame
      (mkLoopState 0%nat [] [] [] [CallInit demo_frame demo_query_points])
    = Some (st', stop) /\
    causal_state st' = 1%nat.
Proof.
  destruct (demo_iteration_runs no_key) as (st' & stop & Hrun).
  exists st', stop. split; [exact Hrun | ].
  destruct (loop_body_threads_causal_state _ _ _ _ _ _ _ _ _ _ _ _ _ _ Hrun)
    as (input & _ & Hcc).
  exact Hcc.
Defined.

(** Key code 369 has low byte 113: the second frame is never read. *)
Lemma quit_key_ends_the_loop_witness :
  stream_loop resize_nearest (fun _ => 369) false still_feature_grids
    still_trajectories demo_capture
    (fst (still_query_features demo_query_points tt tt)) tt demo_colors
    [Some demo_frame; Some demo_frame; None] 0
    (mkLoopState 0%nat [] [] [] [CallInit demo_frame demo_query_points])
  = stream_loop resize_nearest (fun _ => 369) false still_feature_grids
      still_trajectories demo_capture
      (fst (still_query_features demo_query_points tt tt)) tt demo_colors
      [Some demo_frame] 0
      (mkLoopState 0%nat [] [] [] [CallInit demo_frame demo_query_points]).
Proof.
  apply (quit_key_ends_the_loop resize_nearest (fun _ => 369) false
           still_feature_grids still_trajectories demo_capture
           (fst (still_query_features demo_query_points tt tt)) tt
           demo_colors 0 demo_frame [Some demo_frame; None]
           (mkLoopState 0%nat [] [] [] [CallInit demo_frame
                                          demo_query_points])).
  reflexivity.
Defined.

(** The one-frame video gives one prediction and one stored frame. *)
Lemma one_prediction_per_frame_witness :
  exists st,
    main resize_nearest no_key lowest_column lowest_colors false
      still_feature_grids still_query_features still_trajectories
      still_initial_causal_state demo_capture = Some st /\
    length (predictions st) = 1%nat /\
    map pixels (frames st) = [demo_frame].
Proof.
  apply (one_prediction_per_frame resize_nearest no_key lowest_column
           lowest_colors false still_feature_grids still_query_features
           still_trajectories still_initial_causal_state demo_capture
           demo_frame [] still_tracker_per_point lowest_rows eq_refl eq_refl
           demo_frames_preprocess).
  intros i. discriminate.
Defined.

(** A video that could not be opened. *)
Lemma main_needs_first_frame_witness :
  main resize_nearest no_key lowest_column lowest_colors false
    still_feature_grids still_query_features still_trajectories
    still_initial_causal_state
    (mkVideoCapture false [Some demo_frame] 512 512) = None.
Proof.
  apply main_needs_first_frame. left. reflexivity.
Defined.

(** One visible and one hidden point on a frame that already carries a
    circle. *)
Lemma draw_points_only_adds_witness :
  pixels (mkFrame demo_frame [mkCircle (0, 0) 5 (0, 0, 0) (-1);
                              mkCircle (1, 2) 5 (255, 0, 0) (-1)])
  = pixels (mkFrame demo_frame [mkCircle (0, 0) 5 (0, 0, 0) (-1)]) /\
  exists drawn,
    [mkCircle (0, 0) 5 (0, 0, 0) (-1); mkCircle (1, 2) 5 (255, 0, 0) (-1)]
    = [mkCircle (0, 0) 5 (0, 0, 0) (-1)] ++ drawn /\
    (length drawn <= 2)%nat.
Proof.
  destruct (draw_points_only_adds
              (mkFrame demo_frame [mkCircle (0, 0) 5 (0, 0, 0) (-1)])
              (mkFrame demo_frame [mkCircle (0, 0) 5 (0, 0, 0) (-1);
                                   mkCircle (1, 2) 5 (255, 0, 0) (-1)])
              [(17 # 10, 22 # 10); (3 # 1, 4 # 1)]%Q [true; false]
              demo_colors eq_refl)
    as (Hpix & drawn & Hov & Hlen & _).
  split; [exact Hpix | ]. exists drawn. split; [exact Hov | exact Hlen].
Defined.

(** The run on the one-frame video completes. *)
Lemma demo_main_runs :
  exists st,
    main resize_nearest no_key lowest_column lowest_colors false
      still_feature_grids still_query_features still_trajectories
      still_initial_causal_state demo_capture = Some st.
Proof.
  destruct (main_run resize_nearest no_key lowest_column lowest_colors false
              still_feature_grids still_query_features still_trajectories
              still_initial_causal_state demo_capture demo_frame
              still_tracker_per_point lowest_rows demo_frames_preprocess
              eq_refl)
    as (qp & qf & hqf & st & _ & _ & _ & Hmain & _).
  exists st. exact Hmain.
Qed.

Lemma predictions_do_not_share_buffers_witness :
  exists st,
    main resize_nearest no_key lowest_column lowest_colors false
      still_feature_grids still_query_features still_trajectories
      still_initial_causal_state demo_capture = Some st /\
    NoDup (flat_map (fun p => [storage (pred_tracks p);
                               storage (pred_visibles p)])
                    (predictions st)).
Proof.
  destruct demo_main_runs as (st & Hmain).
  exists st. split; [exact Hmain | ].
  apply (predictions_do_not_share_buffers _ _ _ _ _ _ _ _ _ _ _ Hmain).
Defined.
